(** * totoon: the value-to-TOON encoders, embedded and verified

    The repository ships the same encoder in several ports.  Four of them are
    under [src/] and are embedded here, each in a module of its own:

    - [Core]      : [src/js/src/core.ts]      (TypeScript, compact table layout)
    - [Part000]   : [src/unnamed/part_000]    (TypeScript, pipe table layout)
    - [GoTotoon]  : [src/go/totoon.go]        (Go, pipe table layout)
    - [GoPart002] : [src/unnamed/part_002]    (Go, compact table layout)

    The encoders are mutually recursive functions over a dynamically typed
    value tree.  They are embedded as mutual fixpoints over a fuel counter that
    is decremented at every call, in an outcome monad that also carries the
    JavaScript exceptions the code can raise. *)

From Stdlib Require Import String Ascii List PeanoNat NArith Lia Bool.
From Stdlib Require Import Permutation Sorted.
From Stdlib Require Decimal DecimalString.
Import ListNotations.

Open Scope list_scope.
Open Scope string_scope.

(* ================================================================= *)
(** ** Characters and string primitives *)

Definition char_newline : ascii := "010"%char.
Definition char_tab : ascii := "009"%char.
Definition char_cr : ascii := "013"%char.
Definition char_backslash : ascii := "092"%char.
Definition char_dquote : ascii := "034"%char.
Definition char_colon : ascii := ":"%char.
Definition char_pipe : ascii := "|"%char.
Definition char_comma : ascii := ","%char.
Definition char_semicolon : ascii := ";"%char.

(** One-character strings used as separators and wrappers. *)
Definition NL : string := String char_newline "".
Definition DQ : string := String char_dquote "".
Definition BS : string := String char_backslash "".

(** [s.includes(c)] / [strings.Contains(s, c)] for a one-character needle:
    every use in the sources has a needle of length one. *)
Fixpoint includes (c : ascii) (s : string) : bool :=
  match s with
  | "" => false
  | String a rest => Ascii.eqb a c || includes c rest
  end.

(** [/[...]/.test(s)] for a character class. *)
Fixpoint test_class (cls : list ascii) (s : string) : bool :=
  match s with
  | "" => false
  | String a rest => existsb (Ascii.eqb a) cls || test_class cls rest
  end.

(** [s.replace(/c/g, by)] / [strings.ReplaceAll(s, c, by)]. *)
Fixpoint replaceAll (c : ascii) (by_ : string) (s : string) : string :=
  match s with
  | "" => ""
  | String a rest =>
      (if Ascii.eqb a c then by_ else String a "") ++ replaceAll c by_ rest
  end.

Fixpoint last_char (s : string) : option ascii :=
  match s with
  | "" => None
  | String a "" => Some a
  | String _ rest => last_char rest
  end.

Definition first_char (s : string) : option ascii :=
  match s with
  | "" => None
  | String a _ => Some a
  end.

Definition startsWith (c : ascii) (s : string) : bool :=
  match first_char s with
  | Some a => Ascii.eqb a c
  | None => false
  end.

Definition endsWith (c : ascii) (s : string) : bool :=
  match last_char s with
  | Some a => Ascii.eqb a c
  | None => false
  end.

(** [' '.repeat(n)] / [strings.Repeat(" ", n)]. *)
Fixpoint repeat_space (n : nat) : string :=
  match n with
  | O => ""
  | S m => String " " (repeat_space m)
  end.

(** [lines.join(sep)] / [strings.Join(lines, sep)]. *)
Definition join (sep : string) (parts : list string) : string :=
  String.concat sep parts.

Arguments join : simpl never.

Definition quote (s : string) : string := DQ ++ s ++ DQ.

Definition string_of_nat (n : nat) : string :=
  DecimalString.NilEmpty.string_of_uint (Nat.to_uint n).

(* ================================================================= *)
(** ** Outcomes: a result, a raised exception, or an exhausted call budget *)

Inductive outcome (A : Type) : Type :=
| Ret (a : A)
| Throw (msg : string)
| OutOfFuel.

Arguments Ret {A} a.
Arguments Throw {A} msg.
Arguments OutOfFuel {A}.

Definition bind {A B : Type} (m : outcome A) (k : A -> outcome B) : outcome B :=
  match m with
  | Ret a => k a
  | Throw msg => Throw msg
  | OutOfFuel => OutOfFuel
  end.

Notation "x <- m ;; k" := (bind m (fun x => k))
  (at level 61, m at next level, right associativity).

(** A [for ... of] loop whose body produces one result per element. *)
Fixpoint forM {A B : Type} (l : list A) (body : A -> outcome B) : outcome (list B) :=
  match l with
  | [] => Ret []
  | x :: rest =>
      y <- body x ;;
      ys <- forM rest body ;;
      Ret (y :: ys)
  end.

(* ================================================================= *)
(** ** Numbers

    A number is kept as the decimal numeral its native formatting prints
    ([String(n)] in JavaScript, [%v] in Go), plus the two non-finite
    spellings.  No claim below depends on arithmetic on numbers. *)

Inductive JsNumber : Type :=
| NumFinite (d : Decimal.decimal)
| NumNaN
| NumInfinity (negative : bool).

Definition string_of_fraction (f : Decimal.uint) : string :=
  match f with
  | Decimal.Nil => ""
  | _ => "." ++ DecimalString.NilEmpty.string_of_uint f
  end.

Definition string_of_exponent (e : Decimal.int) : string :=
  match e with
  | Decimal.Pos u => "e+" ++ DecimalString.NilEmpty.string_of_uint u
  | Decimal.Neg u => "e-" ++ DecimalString.NilEmpty.string_of_uint u
  end.

Definition String_of_number (n : JsNumber) : string :=
  match n with
  | NumFinite (Decimal.Decimal i f) =>
      DecimalString.NilEmpty.string_of_int i ++ string_of_fraction f
  | NumFinite (Decimal.DecimalExp i f e) =>
      DecimalString.NilEmpty.string_of_int i ++ string_of_fraction f ++ string_of_exponent e
  | NumNaN => "NaN"
  | NumInfinity false => "Infinity"
  | NumInfinity true => "-Infinity"
  end.

Definition number_of_nat (n : nat) : JsNumber :=
  NumFinite (Decimal.Decimal (Decimal.Pos (Nat.to_uint n)) Decimal.Nil).

(* ================================================================= *)
(** ** The value tree ([ToonValue] in core.ts) *)

(** [ToonObject = { [key: string]: ToonValue }]: the own enumerable
    properties, listed in the order [Object.keys] reports them. *)
#[warnings="-register-all"]
Inductive ToonValue : Type :=
| VNull
| VBool (b : bool)
| VNumber (n : JsNumber)
| VString (s : string)
| VArray (items : list ToonValue)
| VObject (props : list (string * ToonValue)).

Definition ToonArray : Type := list ToonValue.
Definition ToonObject : Type := list (string * ToonValue).

(** [typeof v === 'object' && v !== null && !Array.isArray(v)] *)
Definition is_plain_object (v : ToonValue) : bool :=
  match v with
  | VObject _ => true
  | _ => false
  end.

(** Nesting depth of a tree, the measure the call budget is stated in. *)
Fixpoint depth (v : ToonValue) : nat :=
  match v with
  | VArray items => S (list_max (map depth items))
  | VObject props => S (list_max (map (fun p => depth (snd p)) props))
  | _ => 0
  end.

(* ================================================================= *)
(** ** JavaScript objects: property order, assignment and lookup

    A plain object is the list of its own enumerable properties in
    [Object.keys] order; a loop [for (const key of Object.keys(o))] that
    reads [o[key]] is a loop over that list.  The values are those
    [JSON.parse] and literals build: the prototype of an object is
    [Object.prototype], that of an array, a string, a number or a boolean is
    the built-in prototype of its kind, and a property read [o[k]] that finds
    no own property goes on along that chain.  A string is a sequence of
    UTF-16 code units below 256, one character each. *)

(** An array index is a canonical numeric string below [2^32 - 1]
    (ECMAScript, "array index"). *)
Definition digit_value (c : ascii) : option N :=
  let n := N_of_ascii c in
  if (48 <=? n)%N && (n <=? 57)%N then Some (n - 48)%N else None.

Fixpoint parse_digits (acc : N) (s : string) : option N :=
  match s with
  | "" => Some acc
  | String c rest =>
      match digit_value c with
      | Some d => parse_digits (10 * acc + d)%N rest
      | None => None
      end
  end.

Definition array_index (k : string) : option N :=
  match k with
  | "" => None
  | String c rest =>
      if Ascii.eqb c "0"%char
      then (if String.eqb rest "" then Some 0%N else None)
      else match parse_digits 0 k with
           | Some n => if (n <? 4294967295)%N then Some n else None
           | None => None
           end
  end.

(** Where a new property key lands among the existing ones
    (ECMAScript, OrdinaryOwnPropertyKeys): array indices first, in ascending
    numeric order, then every other string key in order of creation. *)
Fixpoint insert_new_key {A : Type} (k : string) (v : A) (o : list (string * A))
  : list (string * A) :=
  match array_index k with
  | None => o ++ [(k, v)]
  | Some i =>
      match o with
      | [] => [(k, v)]
      | (k', v') :: rest =>
          match array_index k' with
          | Some j =>
              if (j <? i)%N then (k', v') :: insert_new_key k v rest
              else (k, v) :: o
          | None => (k, v) :: o
          end
      end
  end.

Fixpoint has_key {A : Type} (k : string) (o : list (string * A)) : bool :=
  match o with
  | [] => false
  | (k', _) :: rest => String.eqb k' k || has_key k rest
  end.

Fixpoint overwrite {A : Type} (k : string) (v : A) (o : list (string * A))
  : list (string * A) :=
  match o with
  | [] => []
  | (k', v') :: rest =>
      if String.eqb k' k then (k', v) :: rest else (k', v') :: overwrite k v rest
  end.

(** [o[k] = v] on an object whose prototype chain ends in
    [Object.prototype]: an own property is overwritten, a new key is created,
    except that the key [__proto__], when it is not an own property, reaches
    the setter of [Object.prototype], which creates no property (it replaces
    the prototype when [v] is an object or null; the list of own properties
    is the same either way). *)
Definition js_set {A : Type} (o : list (string * A)) (k : string) (v : A)
  : list (string * A) :=
  if has_key k o then overwrite k v o
  else if String.eqb k "__proto__" then o
  else insert_new_key k v o.

(** [o[k]] on a plain object; [None] is [undefined]. *)
Fixpoint lookup {A : Type} (k : string) (o : list (string * A)) : option A :=
  match o with
  | [] => None
  | (k', v) :: rest => if String.eqb k' k then Some v else lookup k rest
  end.

Definition TypeError_null : string :=
  "TypeError: Cannot convert undefined or null to object".

Definition index_keys (n : nat) : list string :=
  map string_of_nat (seq 0 n).

(** [Object.keys(v)] on any value of the tree; a string has one index key
    per code unit. *)
Definition Object_keys (v : ToonValue) : outcome (list string) :=
  match v with
  | VNull => Throw TypeError_null
  | VBool _ | VNumber _ => Ret []
  | VString s => Ret (index_keys (String.length s))
  | VArray items => Ret (index_keys (List.length items))
  | VObject props => Ret (map fst props)
  end.

(** The own properties [v[k]] finds on a value of the tree ([None] when
    there is none); the [length] of arrays and strings is an own property. *)
Definition own_property (v : ToonValue) (k : string) : option ToonValue :=
  match v with
  | VNull | VBool _ | VNumber _ => None
  | VString s =>
      if String.eqb k "length" then Some (VNumber (number_of_nat (String.length s)))
      else match array_index k with
           | Some i =>
               match String.get (N.to_nat i) s with
               | Some c => Some (VString (String c ""))
               | None => None
               end
           | None => None
           end
  | VArray items =>
      if String.eqb k "length" then Some (VNumber (number_of_nat (List.length items)))
      else match array_index k with
           | Some i => nth_error items (N.to_nat i)
           | None => None
           end
  | VObject props => lookup k props
  end.

(** What a property read gives: a value of the tree, or a built-in function
    of a prototype, known by its name. *)
Inductive JsValue : Type :=
| JsData (v : ToonValue)
| JsFunction (name : string).

(** [String(f)] for a built-in function [f], as V8 prints it. *)
Definition String_of_function (name : string) : string :=
  "function " ++ name ++ "() { [native code] }".

(** The built-in prototypes of the values of the tree. *)
Inductive prototype : Type :=
| Object_prototype
| Array_prototype
| String_prototype
| Number_prototype
| Boolean_prototype.

(** [Object.getPrototypeOf(Object(v))]; null has none. *)
Definition prototype_of (v : ToonValue) : option prototype :=
  match v with
  | VNull => None
  | VBool _ => Some Boolean_prototype
  | VNumber _ => Some Number_prototype
  | VString _ => Some String_prototype
  | VArray _ => Some Array_prototype
  | VObject _ => Some Object_prototype
  end.

Definition constructor_name (p : prototype) : string :=
  match p with
  | Object_prototype => "Object"
  | Array_prototype => "Array"
  | String_prototype => "String"
  | Number_prototype => "Number"
  | Boolean_prototype => "Boolean"
  end.

(** The methods a prototype holds under string keys (ECMAScript 2024,
    with its annex B), [constructor] apart; each is a function named by its
    key. *)
Definition methods (p : prototype) : list string :=
  match p with
  | Object_prototype =>
      ["__defineGetter__"; "__defineSetter__"; "hasOwnProperty";
       "__lookupGetter__"; "__lookupSetter__"; "isPrototypeOf";
       "propertyIsEnumerable"; "toString"; "valueOf"; "toLocaleString"]
  | Array_prototype =>
      ["at"; "concat"; "copyWithin"; "fill"; "find"; "findIndex"; "findLast";
       "findLastIndex"; "lastIndexOf"; "pop"; "push"; "reverse"; "shift";
       "unshift"; "slice"; "sort"; "splice"; "includes"; "indexOf"; "join";
       "keys"; "entries"; "values"; "forEach"; "filter"; "flat"; "flatMap";
       "map"; "every"; "some"; "reduce"; "reduceRight"; "toLocaleString";
       "toString"; "toReversed"; "toSorted"; "toSpliced"; "with"]
  | String_prototype =>
      ["anchor"; "at"; "big"; "blink"; "bold"; "charAt"; "charCodeAt";
       "codePointAt"; "concat"; "endsWith"; "fontcolor"; "fontsize"; "fixed";
       "includes"; "indexOf"; "isWellFormed"; "italics"; "lastIndexOf";
       "link"; "localeCompare"; "match"; "matchAll"; "normalize"; "padEnd";
       "padStart"; "repeat"; "replace"; "replaceAll"; "search"; "slice";
       "small"; "split"; "strike"; "sub"; "substr"; "substring"; "sup";
       "startsWith"; "toString"; "toWellFormed"; "trim"; "trimStart";
       "trimEnd"; "toLocaleLowerCase"; "toLocaleUpperCase"; "toLowerCase";
       "toUpperCase"; "valueOf"]
  | Number_prototype =>
      ["toExponential"; "toFixed"; "toPrecision"; "toString"; "valueOf";
       "toLocaleString"]
  | Boolean_prototype => ["toString"; "valueOf"]
  end.

(** The function a prototype itself holds under [k]: the constructor, a
    method, or one of the two old names [String.prototype] keeps for
    [trimStart] and [trimEnd]. *)
Definition own_function (p : prototype) (k : string) : option string :=
  if String.eqb k "constructor" then Some (constructor_name p)
  else if existsb (String.eqb k) (methods p) then Some k
  else
    match p with
    | String_prototype =>
        if String.eqb k "trimLeft" then Some "trimStart"
        else if String.eqb k "trimRight" then Some "trimEnd"
        else None
    | _ => None
    end.

(** A prototype read as a value: none has an enumerable property, and
    [Array.prototype] is an array, of length 0. *)
Definition prototype_value (p : prototype) : ToonValue :=
  match p with
  | Array_prototype => VArray []
  | _ => VObject []
  end.

(** What the chain from prototype [p] gives under [k]: a function of [p], or
    else one of [Object.prototype], whose accessor [__proto__] gives [p]
    itself. *)
Definition inherited (p : prototype) (k : string) : option JsValue :=
  match own_function p k with
  | Some name => Some (JsFunction name)
  | None =>
      match own_function Object_prototype k with
      | Some name => Some (JsFunction name)
      | None =>
          if String.eqb k "__proto__" then Some (JsData (prototype_value p))
          else None
      end
  end.

(** [v[k]] on any value of the tree: the own property, or else what the
    prototype chain gives; [None] is [undefined].  No encoder reads a
    property of null: [Object.keys] has raised before. *)
Definition get_property (v : ToonValue) (k : string) : option JsValue :=
  match own_property v k with
  | Some x => Some (JsData x)
  | None =>
      match prototype_of v with
      | Some p => inherited p k
      | None => None
      end
  end.

(** [x ?? ''] *)
Definition nullish_to_empty (x : option JsValue) : JsValue :=
  match x with
  | None | Some (JsData VNull) => JsData (VString "")
  | Some v => v
  end.

(** The key-collecting loop shared by the TypeScript table encoders:
    [for (const k of keys) dict[k] = true]. *)
Definition set_all (dict : list (string * bool)) (keys : list string)
  : list (string * bool) :=
  fold_left (fun d k => js_set d k true) keys dict.

(** The key-collecting loops of the TypeScript table encoders
    (core.ts lines 149-155 and 182-190, part_000 lines 149-155): all keys of
    all rows, through a dictionary.  With [only_objects] the rows that are not
    plain objects are skipped (the guard of core.ts line 184). *)
Fixpoint collect_keys (only_objects : bool) (rows : list ToonValue)
    (dict : list (string * bool)) : outcome (list (string * bool)) :=
  match rows with
  | [] => Ret dict
  | obj :: rest =>
      if only_objects && negb (is_plain_object obj)
      then collect_keys only_objects rest dict
      else
        keys <- Object_keys obj ;;
        collect_keys only_objects rest (set_all dict keys)
  end.

(* ================================================================= *)
(** ** core.ts: the TypeScript encoder with the compact table layout *)

Module Core.

(** The string branch of [toToon] (core.ts lines 38-48). *)
Definition toToon_string (data : string) : string :=
  if test_class [char_newline; char_tab; char_colon; char_pipe; char_dquote] data
  then
    let escaped :=
      replaceAll char_newline (BS ++ "n")
        (replaceAll char_dquote (BS ++ DQ)
           (replaceAll char_backslash (BS ++ BS) data)) in
    quote escaped
  else data.

(** The string branch of [valueToToon] (core.ts lines 267-280). *)
Definition valueToToon_string (value : string) : string :=
  if test_class [char_newline; char_tab; char_cr] value
  then
    let escaped :=
      replaceAll char_tab (BS ++ "t")
        (replaceAll char_cr (BS ++ "r")
           (replaceAll char_newline (BS ++ "n")
              (replaceAll char_dquote (BS ++ DQ)
                 (replaceAll char_backslash (BS ++ BS) value)))) in
    quote escaped
  else value.

(** Lines 203-205 and 224-226: the wrap applied to a cell of an inline
    sub-row or of a nested object. *)
Definition wrap_if_any (delims : list ascii) (s : string) : string :=
  if existsb (fun c => includes c s) delims then quote s else s.

(** Lines 231-242: a scalar cell of a table row. *)
Definition scalar_cell (valueStr : string) : string :=
  if negb (startsWith char_dquote valueStr && endsWith char_dquote valueStr)
  then
    if includes char_comma valueStr || includes char_newline valueStr
       || includes char_colon valueStr || includes char_semicolon valueStr
    then
      let valueStr :=
        if includes char_dquote valueStr
        then replaceAll char_dquote (BS ++ DQ) valueStr
        else valueStr in
      quote valueStr
    else valueStr
  else valueStr.

Section Cells.
(** The cell encoders call [valueToToon(x, 0, 0)]. *)
Variable value00 : ToonValue -> outcome string.

(** [valueToToon(x, 0, 0)] on what a property read gives: on a function no
    test of [valueToToon] applies and its last line returns [String(value)]
    (line 290). *)
Definition member00 (x : JsValue) : outcome string :=
  match x with
  | JsData v => value00 v
  | JsFunction name => Ret (String_of_function name)
  end.

(** Lines 200-206: one cell of an inline sub-row. *)
Definition nested_row_cell (nestedObj : ToonValue) (nk : string)
  : outcome string :=
  let nv := nullish_to_empty (get_property nestedObj nk) in
  nvStr <- member00 nv ;;
  Ret (wrap_if_any [char_comma; char_semicolon; char_colon] nvStr).

(** Lines 181-212: a cell holding an array of objects. *)
Definition nested_table_cell (value : list ToonValue) : outcome string :=
  nestedKeysDict <- collect_keys true value [] ;;
  let nestedKeys := map fst nestedKeysDict in
  let nestedFields := join "," nestedKeys in
  let nestedCount := List.length value in
  nestedRows <-
    forM (filter is_plain_object value) (fun nestedObj =>
      nestedRowValues <- forM nestedKeys (nested_row_cell nestedObj) ;;
      Ret (join "," nestedRowValues)) ;;
  Ret ("[" ++ string_of_nat nestedCount ++ "]{" ++ nestedFields ++ "}:"
         ++ join ";" nestedRows).

(** Lines 214-216: a cell holding any other array. *)
Definition plain_array_cell (value : list ToonValue) : outcome string :=
  items <- forM value value00 ;;
  Ret ("[" ++ join "," items ++ "]").

(** Lines 219-229: a cell holding an object. *)
Definition nested_object_cell (value : list (string * ToonValue)) : outcome string :=
  nestedItems <-
    forM value (fun entry =>
      let '(nk, nv) := entry in
      nvStr <- value00 nv ;;
      Ret (nk ++ ":" ++ wrap_if_any [char_comma; char_colon] nvStr)) ;;
  Ret ("{" ++ join "," nestedItems ++ "}").

(** Lines 175-245: one cell of a table row. *)
Definition cell (obj : ToonValue) (k : string) : outcome string :=
  let value := nullish_to_empty (get_property obj k) in
  match value with
  | JsData (VArray items) =>
      match items with
      | VObject _ :: _ => nested_table_cell items
      | _ => plain_array_cell items
      end
  | JsData (VObject props) => nested_object_cell props
  | _ =>
      valueStr <- member00 value ;;
      Ret (scalar_cell valueStr)
  end.

(** Lines 172-249: the data rows. *)
Definition rows (data : list ToonValue) (allKeys : list string)
  : outcome (list string) :=
  forM data (fun obj =>
    rowValues <- forM allKeys (cell obj) ;;
    Ret ("  " ++ join "," rowValues)).
End Cells.

Fixpoint dictToToon (fuel : nat) (data : ToonObject) (indent level : nat)
  {struct fuel} : outcome string :=
  match fuel with
  | O => OutOfFuel
  | S fuel =>
      match data with
      | [] => Ret "{}"
      | _ =>
          let prefix := repeat_space (indent * level) in
          lines <-
            forM data (fun entry =>
              let '(key, value) := entry in
              match value with
              | VArray ((first :: _) as items) =>
                  if is_plain_object first
                  then
                    t <- listOfObjectsToToon fuel key items indent level ;;
                    Ret [t]
                  else
                    l <- listToToon fuel items indent (level + 1) ;;
                    Ret [prefix ++ key ++ ":"; l]
              | VObject ((_ :: _) as props) =>
                  d <- dictToToon fuel props indent (level + 1) ;;
                  Ret [prefix ++ key ++ ":"; d]
              | _ =>
                  valueStr <- valueToToon fuel value indent (level + 1) ;;
                  Ret [prefix ++ key ++ ": " ++ valueStr]
              end) ;;
          Ret (join NL (List.concat lines))
      end
  end

with listToToon (fuel : nat) (data : ToonArray) (indent level : nat)
  {struct fuel} : outcome string :=
  match fuel with
  | O => OutOfFuel
  | S fuel =>
      match data with
      | [] => Ret "[]"
      | first :: _ =>
          if is_plain_object first
          then listOfObjectsToToon fuel "" data indent level
          else
            let prefix := repeat_space (indent * level) in
            lines <-
              forM data (fun item =>
                valueStr <- valueToToon fuel item indent level ;;
                Ret (prefix ++ "- " ++ valueStr)) ;;
            Ret (join NL lines)
      end
  end

with listOfObjectsToToon (fuel : nat) (key : string) (data : ToonArray)
    (indent level : nat) {struct fuel} : outcome string :=
  match fuel with
  | O => OutOfFuel
  | S fuel =>
      match data with
      | VObject _ :: _ =>
          let prefix := repeat_space (indent * level) in
          allKeysDict <- collect_keys false data [] ;;
          let allKeys := map fst allKeysDict in
          match allKeys with
          | [] => Ret "[]"
          | _ =>
              let count := List.length data in
              let fields := join "," allKeys in
              let header :=
                if String.eqb key ""
                then prefix ++ "[" ++ string_of_nat count ++ "]{" ++ fields ++ "}:"
                else prefix ++ key ++ "[" ++ string_of_nat count ++ "]{" ++ fields ++ "}:" in
              body <- rows (fun v => valueToToon fuel v 0 0) data allKeys ;;
              Ret (join NL (header :: body))
          end
      | _ => listToToon fuel data indent level
      end
  end

with valueToToon (fuel : nat) (value : ToonValue) (indent level : nat)
  {struct fuel} : outcome string :=
  match fuel with
  | O => OutOfFuel
  | S fuel =>
      match value with
      | VNull => Ret "null"
      | VBool b => Ret (if b then "true" else "false")
      | VNumber n => Ret (String_of_number n)
      | VString s => Ret (valueToToon_string s)
      | VArray items =>
          l <- listToToon fuel items indent level ;;
          Ret (NL ++ l)
      | VObject props =>
          d <- dictToToon fuel props indent level ;;
          Ret (NL ++ d)
      end
  end.

(** [toToon(data, indent)] (core.ts lines 25-60). *)
Definition toToon (fuel : nat) (data : ToonValue) (indent : nat) : outcome string :=
  match data with
  | VNull => Ret "null"
  | VBool b => Ret (if b then "true" else "false")
  | VNumber n => Ret (String_of_number n)
  | VString s => Ret (toToon_string s)
  | VArray items => listToToon fuel items indent 0
  | VObject props => dictToToon fuel props indent 0
  end.

(** [fromToon(toonStr)] (core.ts lines 71-73). *)
Definition fromToon (toonStr : string) : outcome ToonValue :=
  Throw "Error: TOON parsing is not yet implemented".

(** The exported and the block encoders, as one type of calls. *)
Inductive call : Type :=
| Call_toToon (data : ToonValue) (indent : nat)
| Call_dictToToon (data : ToonObject) (indent level : nat)
| Call_listToToon (data : ToonArray) (indent level : nat)
| Call_listOfObjectsToToon (key : string) (data : ToonArray) (indent level : nat).

Definition run (fuel : nat) (c : call) : outcome string :=
  match c with
  | Call_toToon data indent => toToon fuel data indent
  | Call_dictToToon data indent level => dictToToon fuel data indent level
  | Call_listToToon data indent level => listToToon fuel data indent level
  | Call_listOfObjectsToToon key data indent level =>
      listOfObjectsToToon fuel key data indent level
  end.

End Core.

(* ================================================================= *)
(** ** part_000: the TypeScript encoder with the pipe table layout *)

Module Part000.

(** The string branches of [toToon] (lines 38-48) and of [valueToToon]
    (lines 206-216) are the same text. *)
Definition escape_string (value : string) : string :=
  if test_class [char_newline; char_tab; char_colon; char_pipe; char_dquote] value
  then
    let escaped :=
      replaceAll char_newline (BS ++ "n")
        (replaceAll char_dquote (BS ++ DQ)
           (replaceAll char_backslash (BS ++ BS) value)) in
    quote escaped
  else value.

(** Lines 181-183: a cell is wrapped when it holds a pipe or a newline. *)
Definition pipe_cell (valueStr : string) : string :=
  if includes char_pipe valueStr || includes char_newline valueStr
  then quote valueStr
  else valueStr.

(** Lines 178-184: one cell of a table row; [value00] is
    [valueToToon(x, 0, 0)], which on a function reaches its last line,
    [String(value)] (line 226). *)
Definition cell (value00 : ToonValue -> outcome string) (obj : ToonValue)
    (k : string) : outcome string :=
  let value := nullish_to_empty (get_property obj k) in
  valueStr <-
    match value with
    | JsData v => value00 v
    | JsFunction name => Ret (String_of_function name)
    end ;;
  Ret (pipe_cell valueStr).

Fixpoint dictToToon (fuel : nat) (data : ToonObject) (indent level : nat)
  {struct fuel} : outcome string :=
  match fuel with
  | O => OutOfFuel
  | S fuel =>
      match data with
      | [] => Ret "{}"
      | _ =>
          let prefix := repeat_space (indent * level) in
          lines <-
            forM data (fun entry =>
              let '(key, value) := entry in
              match value with
              | VArray ((first :: _) as items) =>
                  if is_plain_object first
                  then
                    t <- listOfObjectsToToon fuel key items indent level ;;
                    Ret [t]
                  else
                    l <- listToToon fuel items indent (level + 1) ;;
                    Ret [prefix ++ key ++ ":"; l]
              | VObject ((_ :: _) as props) =>
                  d <- dictToToon fuel props indent (level + 1) ;;
                  Ret [prefix ++ key ++ ":"; d]
              | _ =>
                  valueStr <- valueToToon fuel value indent (level + 1) ;;
                  Ret [prefix ++ key ++ ": " ++ valueStr]
              end) ;;
          Ret (join NL (List.concat lines))
      end
  end

with listToToon (fuel : nat) (data : ToonArray) (indent level : nat)
  {struct fuel} : outcome string :=
  match fuel with
  | O => OutOfFuel
  | S fuel =>
      match data with
      | [] => Ret "[]"
      | first :: _ =>
          if is_plain_object first
          then listOfObjectsToToon fuel "" data indent level
          else
            let prefix := repeat_space (indent * level) in
            lines <-
              forM data (fun item =>
                valueStr <- valueToToon fuel item indent level ;;
                Ret (prefix ++ "- " ++ valueStr)) ;;
            Ret (join NL lines)
      end
  end

with listOfObjectsToToon (fuel : nat) (key : string) (data : ToonArray)
    (indent level : nat) {struct fuel} : outcome string :=
  match fuel with
  | O => OutOfFuel
  | S fuel =>
      match data with
      | VObject _ :: _ =>
          let prefix := repeat_space (indent * level) in
          allKeysDict <- collect_keys false data [] ;;
          let allKeys := map fst allKeysDict in
          match allKeys with
          | [] => Ret "[]"
          | _ =>
              let label := if String.eqb key "" then [] else [prefix ++ key ++ ":"] in
              let prefix :=
                if String.eqb key "" then prefix
                else repeat_space (indent * (level + 1)) in
              let header := join " | " allKeys in
              let separator := join " | " (map (fun _ => "---") allKeys) in
              body <-
                forM data (fun obj =>
                  rowValues <-
                    forM allKeys (cell (fun v => valueToToon fuel v 0 0) obj) ;;
                  Ret (prefix ++ join " | " rowValues)) ;;
              Ret (join NL (label ++ [prefix ++ header; prefix ++ separator] ++ body))
          end
      | _ => listToToon fuel data indent level
      end
  end

with valueToToon (fuel : nat) (value : ToonValue) (indent level : nat)
  {struct fuel} : outcome string :=
  match fuel with
  | O => OutOfFuel
  | S fuel =>
      match value with
      | VNull => Ret "null"
      | VBool b => Ret (if b then "true" else "false")
      | VNumber n => Ret (String_of_number n)
      | VString s => Ret (escape_string s)
      | VArray items =>
          l <- listToToon fuel items indent level ;;
          Ret (NL ++ l)
      | VObject props =>
          d <- dictToToon fuel props indent level ;;
          Ret (NL ++ d)
      end
  end.

Definition toToon (fuel : nat) (data : ToonValue) (indent : nat) : outcome string :=
  match data with
  | VNull => Ret "null"
  | VBool b => Ret (if b then "true" else "false")
  | VNumber n => Ret (String_of_number n)
  | VString s => Ret (escape_string s)
  | VArray items => listToToon fuel items indent 0
  | VObject props => dictToToon fuel props indent 0
  end.

End Part000.

(* ================================================================= *)
(** ** Go values and Go maps

    The Go ports take [interface{}] trees.  The trees modelled are those of
    the six dynamic types [encoding/json] decodes into and the tests build:
    [nil], [bool], a number, [string], [[]interface{}] and
    [map[string]interface{}]; they are the constructors of [ToonValue] in
    that order.  A Go map has no order of its own: the list under [VObject]
    only holds its entries, and every [for k, v := range m] visits them in an
    order the language leaves unspecified.  That order is an oracle the
    encoders are parameterised by; an oracle is admissible when it permutes
    the entries. *)

Definition map_order : Type :=
  list (string * ToonValue) -> list (string * ToonValue).

Definition admissible (range_map : map_order) : Prop :=
  forall m, Permutation (range_map m) m.

(** Two admissible oracles. *)
Definition stored_order : map_order := fun m => m.
Definition reverse_order : map_order := fun m => List.rev m.

(** [v, exists := obj[k]] on a row, which the row loops have asserted to be a
    map. *)
Definition map_index (obj : ToonValue) (k : string) : option ToonValue :=
  match obj with
  | VObject m => lookup k m
  | _ => None
  end.

(** [if !allKeysMap[k] { allKeysMap[k] = true; allKeys = append(allKeys, k) }]:
    the map and the slice are updated together, so membership in the slice
    is what [allKeysMap[k]] reports. *)
Definition append_new (allKeys : list string) (k : string) : list string :=
  if existsb (String.eqb k) allKeys then allKeys else allKeys ++ [k].

(** The key-collecting loops of the Go table encoders. *)
Fixpoint go_collect_keys (range_map : map_order) (data : list ToonValue)
    (allKeys : list string) : list string :=
  match data with
  | [] => allKeys
  | VObject obj :: rest =>
      go_collect_keys range_map rest
        (fold_left append_new (map fst (range_map obj)) allKeys)
  | _ :: rest => go_collect_keys range_map rest allKeys
  end.

(** [escapeString]'s writing loop: one switch per character. *)
Fixpoint go_escape_chars (with_cr : bool) (s : string) : string :=
  match s with
  | "" => ""
  | String c rest =>
      (if Ascii.eqb c char_backslash then BS ++ BS
       else if Ascii.eqb c char_dquote then BS ++ DQ
       else if Ascii.eqb c char_newline then BS ++ "n"
       else if with_cr && Ascii.eqb c char_cr then BS ++ "r"
       else if Ascii.eqb c char_tab then BS ++ "t"
       else String c "")
      ++ go_escape_chars with_cr rest
  end.

(* ================================================================= *)
(** ** go/totoon.go: the Go encoder with the pipe table layout *)

Module GoTotoon.

(** [escapeString] (totoon.go lines 260-293). *)
Definition escapeString (s : string) : string :=
  if test_class [char_newline; char_tab; char_colon; char_pipe; char_dquote] s
  then DQ ++ go_escape_chars false s ++ DQ
  else s.

Section Encoder.
Variable range_map : map_order.

(** The body of [listOfObjectsToToon] once the first element is known to
    be a map (totoon.go lines 162-224); [value00] is
    [valueToToon(v, 0, 0)]. *)
Definition table (value00 : ToonValue -> outcome string) (key : string)
    (data : ToonArray) (indent level : nat) : outcome string :=
  let prefix := repeat_space (indent * level) in
  let allKeys := go_collect_keys range_map data [] in
  match allKeys with
  | [] => Ret "[]"
  | _ =>
      let label := if String.eqb key "" then [] else [prefix ++ key ++ ":"] in
      let prefix :=
        if String.eqb key "" then prefix
        else repeat_space (indent * (level + 1)) in
      let header := join " | " allKeys in
      let separator := join " | " (map (fun _ => "---") allKeys) in
      body <-
        forM (filter is_plain_object data) (fun obj =>
          rowValues <-
            forM allKeys (fun k =>
              match map_index obj k with
              | Some v =>
                  value <- value00 v ;;
                  Ret (if includes char_pipe value || includes char_newline value
                       then quote value else value)
              | None => Ret ""
              end) ;;
          Ret (prefix ++ join " | " rowValues)) ;;
      Ret (join NL (label ++ [prefix ++ header; prefix ++ separator] ++ body))
  end.

Fixpoint dictToToon (fuel : nat) (data : ToonObject) (indent level : nat)
  {struct fuel} : outcome string :=
  match fuel with
  | O => OutOfFuel
  | S fuel =>
      match data with
      | [] => Ret "{}"
      | _ =>
          let prefix := repeat_space (indent * level) in
          lines <-
            forM (range_map data) (fun entry =>
              let '(key, value) := entry in
              match value with
              | VArray ((first :: _) as val) =>
                  if is_plain_object first
                  then
                    t <- listOfObjectsToToon fuel key val indent level ;;
                    Ret [t]
                  else
                    l <- listToToon fuel val indent (level + 1) ;;
                    Ret [prefix ++ key ++ ":"; l]
              | VObject ((_ :: _) as val) =>
                  d <- dictToToon fuel val indent (level + 1) ;;
                  Ret [prefix ++ key ++ ":"; d]
              | _ =>
                  valueStr <- valueToToon fuel value indent (level + 1) ;;
                  Ret [prefix ++ key ++ ": " ++ valueStr]
              end) ;;
          Ret (join NL (List.concat lines))
      end
  end

with listToToon (fuel : nat) (data : ToonArray) (indent level : nat)
  {struct fuel} : outcome string :=
  match fuel with
  | O => OutOfFuel
  | S fuel =>
      match data with
      | [] => Ret "[]"
      | first :: _ =>
          if is_plain_object first
          then listOfObjectsToToon fuel "" data indent level
          else
            let prefix := repeat_space (indent * level) in
            lines <-
              forM data (fun item =>
                valueStr <- valueToToon fuel item indent level ;;
                Ret (prefix ++ "- " ++ valueStr)) ;;
            Ret (join NL lines)
      end
  end

with listOfObjectsToToon (fuel : nat) (key : string) (data : ToonArray)
    (indent level : nat) {struct fuel} : outcome string :=
  match fuel with
  | O => OutOfFuel
  | S fuel =>
      match data with
      | [] => Ret "[]"
      | VObject _ :: _ =>
          table (fun v => valueToToon fuel v 0 0) key data indent level
      | _ => listToToon fuel data indent level
      end
  end

with valueToToon (fuel : nat) (value : ToonValue) (indent level : nat)
  {struct fuel} : outcome string :=
  match fuel with
  | O => OutOfFuel
  | S fuel =>
      match value with
      | VNull => Ret "null"
      | VBool b => Ret (if b then "true" else "false")
      | VNumber n => Ret (String_of_number n)
      | VString s => Ret (escapeString s)
      | VArray items =>
          l <- listToToon fuel items indent level ;;
          Ret (NL ++ l)
      | VObject props =>
          d <- dictToToon fuel props indent level ;;
          Ret (NL ++ d)
      end
  end.

Definition toToon (fuel : nat) (data : ToonValue) (indent level : nat)
  : outcome string :=
  match data with
  | VNull => Ret "null"
  | VBool b => Ret (if b then "true" else "false")
  | VNumber n => Ret (String_of_number n)
  | VString s => Ret (escapeString s)
  | VArray items => listToToon fuel items indent level
  | VObject props => dictToToon fuel props indent level
  end.

(** [ToToon(data)] *)
Definition ToToon (fuel : nat) (data : ToonValue) : outcome string :=
  toToon fuel data 2 0.
End Encoder.

End GoTotoon.

(* ================================================================= *)
(** ** part_002: the Go encoder with the compact table layout *)

Module GoPart002.

(** [escapeString] (part_002 lines 324-360). *)
Definition escapeString (s : string) : string :=
  if test_class [char_newline; char_tab; char_cr] s
  then DQ ++ go_escape_chars true s ++ DQ
  else s.

(** Lines 235-237 and 261-263: the wrap applied to a cell of an inline
    sub-row or of a nested map. *)
Definition wrap_if_any (delims : list ascii) (s : string) : string :=
  if existsb (fun c => includes c s) delims then quote s else s.

(** Lines 268-279: a scalar cell of a table row. *)
Definition scalar_cell (value : string) : string :=
  if negb (startsWith char_dquote value && endsWith char_dquote value)
  then
    if includes char_comma value || includes char_newline value
       || includes char_colon value || includes char_semicolon value
    then
      let value :=
        if includes char_dquote value
        then replaceAll char_dquote (BS ++ DQ) value
        else value in
      quote value
    else value
  else value.

Section Encoder.
Variable range_map : map_order.

Section Cells.
(** [valueToToon(x, 0, 0)] *)
Variable value00 : ToonValue -> outcome string.

(** Lines 210-244: a cell holding a slice whose first element is a map. *)
Definition nested_table_cell (val : list ToonValue) : outcome string :=
  let nestedKeys := go_collect_keys range_map val [] in
  let nestedFields := join "," nestedKeys in
  let nestedCount := List.length val in
  nestedRows <-
    forM (filter is_plain_object val) (fun nestedObj =>
      nestedRowValues <-
        forM nestedKeys (fun nk =>
          match map_index nestedObj nk with
          | Some nvVal =>
              nv <- value00 nvVal ;;
              Ret (wrap_if_any [char_comma; char_semicolon; char_colon] nv)
          | None => Ret ""
          end) ;;
      Ret (join "," nestedRowValues)) ;;
  Ret ("[" ++ string_of_nat nestedCount ++ "]{" ++ nestedFields ++ "}:"
         ++ join ";" nestedRows).

(** Lines 246-251: a cell holding any other non-empty slice. *)
Definition plain_array_cell (val : list ToonValue) : outcome string :=
  items <- forM val value00 ;;
  Ret ("[" ++ join "," items ++ "]").

(** Lines 257-266: a cell holding a map. *)
Definition nested_object_cell (val : list (string * ToonValue)) : outcome string :=
  nestedItems <-
    forM (range_map val) (fun entry =>
      let '(nk, nv) := entry in
      nvStr <- value00 nv ;;
      Ret (nk ++ ":" ++ wrap_if_any [char_comma; char_colon] nvStr)) ;;
  Ret ("{" ++ join "," nestedItems ++ "}").

(** Lines 203-282: one cell of a table row. *)
Definition cell (obj : ToonValue) (k : string) : outcome string :=
  match map_index obj k with
  | None => Ret ""
  | Some v =>
      match v with
      | VArray val =>
          match val with
          | [] => Ret "[]"
          | VObject _ :: _ => nested_table_cell val
          | _ => plain_array_cell val
          end
      | VObject val => nested_object_cell val
      | _ =>
          value <- value00 v ;;
          Ret (scalar_cell value)
      end
  end.
End Cells.

(** The body of [listOfObjectsToToon] once the first element is known to
    be a map (part_002 lines 162-288). *)
Definition table (value00 : ToonValue -> outcome string) (key : string)
    (data : ToonArray) (indent level : nat) : outcome string :=
  let prefix := repeat_space (indent * level) in
  let allKeys := go_collect_keys range_map data [] in
  match allKeys with
  | [] => Ret "[]"
  | _ =>
      let count := List.length data in
      let fields := join "," allKeys in
      let header :=
        if String.eqb key ""
        then prefix ++ "[" ++ string_of_nat count ++ "]{" ++ fields ++ "}:"
        else prefix ++ key ++ "[" ++ string_of_nat count ++ "]{" ++ fields ++ "}:" in
      body <-
        forM (filter is_plain_object data) (fun obj =>
          rowValues <- forM allKeys (cell value00 obj) ;;
          Ret ("  " ++ join "," rowValues)) ;;
      Ret (join NL (header :: body))
  end.

Fixpoint dictToToon (fuel : nat) (data : ToonObject) (indent level : nat)
  {struct fuel} : outcome string :=
  match fuel with
  | O => OutOfFuel
  | S fuel =>
      match data with
      | [] => Ret "{}"
      | _ =>
          let prefix := repeat_space (indent * level) in
          lines <-
            forM (range_map data) (fun entry =>
              let '(key, value) := entry in
              match value with
              | VArray ((first :: _) as val) =>
                  if is_plain_object first
                  then
                    t <- listOfObjectsToToon fuel key val indent level ;;
                    Ret [t]
                  else
                    l <- listToToon fuel val indent (level + 1) ;;
                    Ret [prefix ++ key ++ ":"; l]
              | VObject ((_ :: _) as val) =>
                  d <- dictToToon fuel val indent (level + 1) ;;
                  Ret [prefix ++ key ++ ":"; d]
              | _ =>
                  valueStr <- valueToToon fuel value indent (level + 1) ;;
                  Ret [prefix ++ key ++ ": " ++ valueStr]
              end) ;;
          Ret (join NL (List.concat lines))
      end
  end

with listToToon (fuel : nat) (data : ToonArray) (indent level : nat)
  {struct fuel} : outcome string :=
  match fuel with
  | O => OutOfFuel
  | S fuel =>
      match data with
      | [] => Ret "[]"
      | first :: _ =>
          if is_plain_object first
          then listOfObjectsToToon fuel "" data indent level
          else
            let prefix := repeat_space (indent * level) in
            lines <-
              forM data (fun item =>
                valueStr <- valueToToon fuel item indent level ;;
                Ret (prefix ++ "- " ++ valueStr)) ;;
            Ret (join NL lines)
      end
  end

with listOfObjectsToToon (fuel : nat) (key : string) (data : ToonArray)
    (indent level : nat) {struct fuel} : outcome string :=
  match fuel with
  | O => OutOfFuel
  | S fuel =>
      match data with
      | [] => Ret "[]"
      | VObject _ :: _ =>
          table (fun v => valueToToon fuel v 0 0) key data indent level
      | _ => listToToon fuel data indent level
      end
  end

with valueToToon (fuel : nat) (value : ToonValue) (indent level : nat)
  {struct fuel} : outcome string :=
  match fuel with
  | O => OutOfFuel
  | S fuel =>
      match value with
      | VNull => Ret "null"
      | VBool b => Ret (if b then "true" else "false")
      | VNumber n => Ret (String_of_number n)
      | VString s => Ret (escapeString s)
      | VArray items =>
          l <- listToToon fuel items indent level ;;
          Ret (NL ++ l)
      | VObject props =>
          d <- dictToToon fuel props indent level ;;
          Ret (NL ++ d)
      end
  end.

Definition toToon (fuel : nat) (data : ToonValue) (indent level : nat)
  : outcome string :=
  match data with
  | VNull => Ret "null"
  | VBool b => Ret (if b then "true" else "false")
  | VNumber n => Ret (String_of_number n)
  | VString s => Ret (escapeString s)
  | VArray items => listToToon fuel items indent level
  | VObject props => dictToToon fuel props indent level
  end.

(** [ToToon(data)] *)
Definition ToToon (fuel : nat) (data : ToonValue) : outcome string :=
  toToon fuel data 2 0.
End Encoder.

End GoPart002.

(* ================================================================= *)
(** ** The converters of the TypeScript package

    [jsonToToon], [yamlToToon], [xmlToToon] and [xmlElementToDict]; their
    text follows the tests in [src/js/src/__tests__/converters.test.ts]
    (lines 42-165).  The parsers they call ([JSON.parse], [yaml.load] of
    js-yaml, [parseString] of xml2js) are libraries, taken as parameters. *)

Module Converters.

(** ToBoolean *)
Fixpoint uint_is_zero (u : Decimal.uint) : bool :=
  match u with
  | Decimal.Nil => true
  | Decimal.D0 u' => uint_is_zero u'
  | _ => false
  end.

Definition int_is_zero (i : Decimal.int) : bool :=
  match i with
  | Decimal.Pos u | Decimal.Neg u => uint_is_zero u
  end.

Definition truthy (v : ToonValue) : bool :=
  match v with
  | VNull => false
  | VBool b => b
  | VNumber (NumFinite (Decimal.Decimal i f))
  | VNumber (NumFinite (Decimal.DecimalExp i f _)) =>
      negb (int_is_zero i && uint_is_zero f)
  | VNumber NumNaN => false
  | VNumber (NumInfinity _) => true
  | VString s => negb (String.eqb s "")
  | VArray _ | VObject _ => true
  end.

Fixpoint chars (s : string) : list ToonValue :=
  match s with
  | "" => []
  | String c rest => VString (String c "") :: chars rest
  end.

(** [Object.entries(v)] for a value that is not null. *)
Definition Object_entries (v : ToonValue) : list (string * ToonValue) :=
  match v with
  | VNull | VBool _ | VNumber _ => []
  | VString s => combine (index_keys (String.length s)) (chars s)
  | VArray items => combine (index_keys (List.length items)) items
  | VObject props => props
  end.

(** [Object.assign(target, source)] *)
Definition Object_assign (target : list (string * ToonValue)) (source : ToonValue)
  : list (string * ToonValue) :=
  fold_left (fun t entry => js_set t (fst entry) (snd entry))
    (Object_entries source) target.

(** Lines 131-136: the result starts from the attributes. *)
Definition attributes_of (props : list (string * ToonValue))
  : list (string * ToonValue) :=
  match lookup "$" props with
  | Some attrs => if truthy attrs then Object_assign [] attrs else []
  | None => []
  end.

(** [xmlElementToDict(element)] (lines 121-164). *)
Fixpoint xmlElementToDict (element : ToonValue) : ToonValue :=
  match element with
  | VArray items => VArray (map xmlElementToDict items)
  | VObject props =>
      VObject
        (fold_left
           (fun result entry =>
              let '(key, value) := entry in
              if String.eqb key "$" then result
              else
                js_set result key
                  match value with
                  | VArray [child] =>
                      match child with
                      | VObject [] | VArray [] => VString ""
                      | VString _ => child
                      | _ => xmlElementToDict child
                      end
                  | VArray items => VArray (map xmlElementToDict items)
                  | VObject _ => xmlElementToDict value
                  | _ => value
                  end)
           props (attributes_of props))
  | _ => element
  end.

(** Lines 142-160: what is stored under the key of a child. *)
Definition child_value (value : ToonValue) : ToonValue :=
  match value with
  | VArray [child] =>
      match child with
      | VObject [] | VArray [] => VString ""
      | VString _ => child
      | _ => xmlElementToDict child
      end
  | VArray items => VArray (map xmlElementToDict items)
  | VObject _ => xmlElementToDict value
  | _ => value
  end.

(** The loop of lines 139-161 as a step on the result.  Under the name
    [__proto__] the assignment creates no property of [result]; when the
    value is an object it becomes the prototype of [result], which the list
    of own properties does not record. *)
Definition add_child (result : list (string * ToonValue))
    (entry : string * ToonValue) : list (string * ToonValue) :=
  let '(key, value) := entry in
  if String.eqb key "$" then result
  else js_set result key (child_value value).

Section Parsers.
Variable JSON_parse : string -> outcome ToonValue.
Variable yaml_load : string -> outcome ToonValue.
Variable parseXml : string -> outcome ToonValue.

(** [jsonToToon(data)] (lines 68-78): a string is parsed, anything else is
    encoded as it is, with the default indent of [toToon]. *)
Definition jsonToToon (fuel : nat) (data : string + ToonValue) : outcome string :=
  match data with
  | inl text =>
      parsed <- JSON_parse text ;;
      Core.toToon fuel parsed 2
  | inr parsed => Core.toToon fuel parsed 2
  end.

(** [yamlToToon(data)] (lines 92-102). *)
Definition yamlToToon (fuel : nat) (data : string + ToonValue) : outcome string :=
  match data with
  | inl text =>
      parsed <- yaml_load text ;;
      Core.toToon fuel parsed 2
  | inr parsed => Core.toToon fuel parsed 2
  end.

(** [xmlToToon(data)] (lines 116-119); the promise is its outcome. *)
Definition xmlToToon (fuel : nat) (data : string) : outcome string :=
  parsed <- parseXml data ;;
  Core.toToon fuel (xmlElementToDict parsed) 2.
End Parsers.

End Converters.

(* ================================================================= *)
(** ** Vocabulary of the statements *)

(** The keys of the rows of a table, in the order a reader meets them: row
    by row, and within a row in the row's own order. *)
Definition keys_of_rows (data : list ToonValue) : list string :=
  flat_map (fun row =>
              match row with
              | VObject props => map fst props
              | _ => []
              end) data.

(** The keys an assignment [o[k] = v] to an object built from a literal
    creates a property for: all but [__proto__]. *)
Definition creates_property (k : string) : bool :=
  negb (String.eqb k "__proto__").

(** The attributes of an XML element as xml2js hands them over: the entries
    of the value under [$], when there is one and it is truthy. *)
Definition attribute_entries (props : list (string * ToonValue))
  : list (string * ToonValue) :=
  match lookup "$" props with
  | Some attrs =>
      if Converters.truthy attrs then Converters.Object_entries attrs else []
  | None => []
  end.

(** The names under which a child element is stored: every key but the
    attribute map [$] and [__proto__]. *)
Definition child_name (k : string) : bool :=
  negb (String.eqb k "$") && creates_property k.

(** A row that is an object none of whose keys is an array index. *)
Definition plain_keyed_object (row : ToonValue) : Prop :=
  match row with
  | VObject props => Forall (fun k => array_index k = None) (map fst props)
  | _ => False
  end.

(** The group of output lines of an entry of a mapping: it opens with the
    indent and the key of the entry, followed by a colon or, for an array of
    objects, by the bracket of the table header; only when the rows of such
    an array have no column is it the bare literal an empty table is
    printed as. *)
Definition opens_with_key (prefix : string) (entry : string * ToonValue)
    (group : list string) : Prop :=
  match snd entry with
  | VArray ((VObject _ :: _) as rows) =>
      match collect_keys false rows [] with
      | Ret [] => group = ["[]"]
      | Ret (_ :: _) => exists more, group = [prefix ++ fst entry ++ "[" ++ more]
      | _ => False
      end
  | _ => exists more lines, group = (prefix ++ fst entry ++ ":" ++ more) :: lines
  end.

(** The lines an entry of a mapping contributes at nesting [level], with
    [fuel] calls left for the encoders of its value: the table of an array
    that starts with an object; the key line and then the block of any other
    array or object that is not empty; one line with the key and the value
    otherwise. *)
Definition entry_lines (fuel indent level : nat) (entry : string * ToonValue)
    (group : list string) : Prop :=
  let prefix := repeat_space (indent * level) in
  let '(key, value) := entry in
  match value with
  | VArray ((VObject _ :: _) as rows) =>
      exists t,
        Core.listOfObjectsToToon fuel key rows indent level = Ret t
        /\ group = [t]
  | VArray ((_ :: _) as items) =>
      exists l,
        Core.listToToon fuel items indent (level + 1) = Ret l
        /\ group = [prefix ++ key ++ ":"; l]
  | VObject ((_ :: _) as props) =>
      exists d,
        Core.dictToToon fuel props indent (level + 1) = Ret d
        /\ group = [prefix ++ key ++ ":"; d]
  | _ =>
      exists valueStr,
        Core.valueToToon fuel value indent (level + 1) = Ret valueStr
        /\ group = [prefix ++ key ++ ": " ++ valueStr]
  end.

(** The cells of a table: one list of cells per row, in the order of the
    rows, and in each list one cell per column, in the order of the columns,
    each what [cell] returns for its row and its column. *)
Definition table_cells (cell : ToonValue -> string -> outcome string)
    (rows : list ToonValue) (allKeys : list string)
    (rowCells : list (list string)) : Prop :=
  Forall2 (fun obj cells =>
             Forall2 (fun k c => cell obj k = Ret c) allKeys cells)
          rows rowCells.

(** Blocks and line tails: what the recursion hands back. *)
Definition no_trailing_newline (s : string) : Prop :=
  last_char s <> Some char_newline.

Definition block (s : string) : Prop :=
  s <> "" /\ no_trailing_newline s.

Definition core_returns_blocks (fuel : nat) : Prop :=
  (forall data indent level s,
      Core.dictToToon fuel data indent level = Ret s -> block s) /\
  (forall data indent level s,
      Core.listToToon fuel data indent level = Ret s -> block s) /\
  (forall key data indent level s,
      Core.listOfObjectsToToon fuel key data indent level = Ret s -> block s) /\
  (forall value indent level s,
      Core.valueToToon fuel value indent level = Ret s -> no_trailing_newline s).

Definition core_budget (fuel : nat) : Prop :=
  (forall data indent level,
      3 * list_max (map (fun p => depth (snd p)) data) + 3 <= fuel ->
      Core.dictToToon fuel data indent level <> OutOfFuel) /\
  (forall data indent level,
      3 * list_max (map depth data) + 3 <= fuel ->
      Core.listToToon fuel data indent level <> OutOfFuel) /\
  (forall key first data indent level,
      3 * list_max (map depth (VObject first :: data)) + 2 <= fuel ->
      Core.listOfObjectsToToon fuel key (VObject first :: data) indent level
      <> OutOfFuel) /\
  (forall value indent level,
      3 * depth value + 1 <= fuel ->
      Core.valueToToon fuel value indent level <> OutOfFuel).

(** [settles a b]: the run [b], given more budget than [a], agrees with [a]
    unless [a] ran out. *)
Definition settles {A : Type} (a b : outcome A) : Prop :=
  a = OutOfFuel \/ a = b.

Definition core_settled (fuel fuel' : nat) : Prop :=
  (forall data indent level,
      settles (Core.dictToToon fuel data indent level)
              (Core.dictToToon fuel' data indent level)) /\
  (forall data indent level,
      settles (Core.listToToon fuel data indent level)
              (Core.listToToon fuel' data indent level)) /\
  (forall key data indent level,
      settles (Core.listOfObjectsToToon fuel key data indent level)
              (Core.listOfObjectsToToon fuel' key data indent level)) /\
  (forall value indent level,
      settles (Core.valueToToon fuel value indent level)
              (Core.valueToToon fuel' value indent level)).

(** The order [Object.keys] keeps: among two keys the earlier one is an
    array index whenever the later one is, and then it is not the larger. *)
Definition key_before (a b : string) : Prop :=
  match array_index a, array_index b with
  | Some i, Some j => (i <= j)%N
  | Some _, None => True
  | None, Some _ => False
  | None, None => True
  end.

(** The keys of a JavaScript object: no key twice, array indices first and
    ascending. *)
Definition js_ordered (keys : list string) : Prop :=
  StronglySorted key_before keys /\ NoDup keys.

Definition is_null (v : ToonValue) : bool :=
  match v with
  | VNull => true
  | _ => false
  end.

(** No array of the tree that starts with an object holds a null. *)
Fixpoint no_null_row (v : ToonValue) : bool :=
  match v with
  | VArray items =>
      match items with
      | VObject _ :: _ => negb (existsb is_null items)
      | _ => true
      end
      && forallb no_null_row items
  | VObject props => forallb (fun p => no_null_row (snd p)) props
  | _ => true
  end.

Definition no_throw {A : Type} (m : outcome A) : Prop :=
  forall msg, m <> Throw msg.

Definition returns {A : Type} (m : outcome A) : Prop :=
  exists a, m = Ret a.

(** The trees on which the layout and the quoting policy play no part: no
    array starts with an object, and no string holds a control character, a
    colon, a pipe or a double quote. *)
Fixpoint plain_tree (v : ToonValue) : bool :=
  match v with
  | VString s =>
      negb (test_class [char_newline; char_tab; char_cr;
                        char_colon; char_pipe; char_dquote] s)
  | VArray items =>
      match items with
      | VObject _ :: _ => false
      | _ => true
      end
      && forallb plain_tree items
  | VObject props => forallb (fun p => plain_tree (snd p)) props
  | _ => true
  end.

(** No null anywhere in the tree. *)
Fixpoint no_null (v : ToonValue) : bool :=
  match v with
  | VNull => false
  | VArray items => forallb no_null items
  | VObject props => forallb (fun p => no_null (snd p)) props
  | _ => true
  end.

(* ================================================================= *)
(** * Properties *)

(* ----------------------------------------------------------------- *)
(** ** Strings *)

Lemma append_empty_r (s : string) : s ++ "" = s.
Proof. induction s as [|a s IH]; simpl; [reflexivity | now rewrite IH]. Qed.

Lemma append_assoc (a b c : string) : (a ++ b) ++ c = a ++ b ++ c.
Proof. induction a as [|x a IH]; simpl; [reflexivity | now rewrite IH]. Qed.

Lemma append_eq_empty (a b : string) : a ++ b = "" -> a = "" /\ b = "".
Proof. destruct a; simpl; [auto | discriminate]. Qed.

Lemma last_char_none (s : string) : last_char s = None -> s = "".
Proof.
  induction s as [|a s IH]; [reflexivity|].
  simpl. destruct s; [discriminate|]. intros H. apply IH in H. discriminate.
Qed.

Lemma last_char_cons (x : ascii) (r : string) :
  last_char (String x r) =
  match last_char r with
  | Some c => Some c
  | None => Some x
  end.
Proof.
  destruct r as [|y r]; [reflexivity|].
  change (last_char (String x (String y r))) with (last_char (String y r)).
  destruct (last_char (String y r)) eqn:E; [reflexivity|].
  apply last_char_none in E. discriminate.
Qed.

Lemma last_char_append (a b : string) :
  last_char (a ++ b) =
  match last_char b with
  | Some c => Some c
  | None => last_char a
  end.
Proof.
  induction a as [|x a IH].
  - simpl. now destruct (last_char b).
  - change (String x a ++ b) with (String x (a ++ b)).
    rewrite !last_char_cons, IH.
    destruct (last_char b); [reflexivity|].
    now destruct (last_char a).
Qed.

Lemma includes_append (c : ascii) (a b : string) :
  includes c (a ++ b) = includes c a || includes c b.
Proof.
  induction a as [|x a IH]; simpl; [reflexivity|].
  now rewrite IH, orb_assoc.
Qed.

Lemma includes_last_char (c : ascii) (s : string) :
  last_char s = Some c -> includes c s = true.
Proof.
  induction s as [|a s IH]; [discriminate|].
  simpl. destruct s as [|b s].
  - intros [= ->]. now rewrite Ascii.eqb_refl.
  - intros H. rewrite (IH H). apply orb_true_r.
Qed.

Lemma test_class_includes (cls : list ascii) (c : ascii) (s : string) :
  In c cls -> test_class cls s = false -> includes c s = false.
Proof.
  intros Hin. induction s as [|a s IH]; simpl; [reflexivity|].
  intros H. apply orb_false_iff in H as [Ha Hs].
  rewrite (IH Hs), orb_false_r.
  destruct (Ascii.eqb a c) eqn:E; [|reflexivity].
  apply Ascii.eqb_eq in E. subst a.
  rewrite <- Ha. symmetry. apply existsb_exists.
  exists c. split; [assumption | apply Ascii.eqb_refl].
Qed.

Lemma no_newline_no_trailing (s : string) :
  includes char_newline s = false -> no_trailing_newline s.
Proof.
  intros H E. apply includes_last_char in E. congruence.
Qed.

Lemma no_trailing_append (a b : string) :
  block a -> no_trailing_newline b -> block (a ++ b).
Proof.
  intros [Ha Ta] Tb. split.
  - intros E. apply append_eq_empty in E. tauto.
  - unfold no_trailing_newline in *. rewrite last_char_append.
    destruct (last_char b); assumption.
Qed.

Lemma block_append_r (a b : string) : block b -> block (a ++ b).
Proof.
  intros [Hb Tb]. split.
  - intros E. apply append_eq_empty in E. tauto.
  - unfold no_trailing_newline in *. rewrite last_char_append.
    destruct (last_char b) eqn:E; [assumption|].
    apply last_char_none in E. contradiction.
Qed.

Lemma block_tail (s : string) : block s -> no_trailing_newline s.
Proof. now intros [_ H]. Qed.

Lemma block_literal (a : ascii) (s : string) :
  last_char (String a s) <> Some char_newline -> block (String a s).
Proof. intros H. split; [discriminate | exact H]. Qed.

Lemma block_quote (s : string) : block (quote s).
Proof.
  unfold quote. apply block_append_r, block_append_r.
  apply block_literal. discriminate.
Qed.

Lemma join_cons (sep x : string) (l : list string) :
  join sep (x :: l) = match l with [] => x | _ => x ++ sep ++ join sep l end.
Proof. destruct l; reflexivity. Qed.

Lemma join_blocks (lines : list string) :
  lines <> [] -> Forall block lines -> block (join NL lines).
Proof.
  induction lines as [|x l IH]; [congruence|].
  intros _ H. inversion H as [|? ? Hx Hl]; subst.
  rewrite join_cons. destruct l as [|y l]; [assumption|].
  apply block_append_r, block_append_r, IH; [discriminate | assumption].
Qed.

(** Joining with a separator that is not a line break keeps the tail clean
    even when the last part is empty. *)
Lemma join_tails (sep : string) (parts : list string) :
  block sep -> Forall no_trailing_newline parts ->
  no_trailing_newline (join sep parts).
Proof.
  intros Hsep. induction parts as [|x l IH]; intros H.
  - discriminate.
  - inversion H as [|? ? Hx Hl]; subst.
    rewrite join_cons. destruct l as [|y l]; [assumption|].
    unfold no_trailing_newline. rewrite last_char_append.
    assert (B : block (sep ++ join sep (y :: l)))
      by (apply no_trailing_append; auto).
    destruct B as [Bn Bt]. unfold no_trailing_newline in Bt.
    destruct (last_char (sep ++ join sep (y :: l))) eqn:E.
    + exact Bt.
    + apply last_char_none in E. contradiction.
Qed.

Lemma tail_cons (a : ascii) (s : string) :
  a <> char_newline -> no_trailing_newline s -> no_trailing_newline (String a s).
Proof.
  unfold no_trailing_newline. intros Ha Hs. rewrite last_char_cons.
  destruct (last_char s); congruence.
Qed.

Lemma block_cons (a : ascii) (s : string) :
  a <> char_newline -> no_trailing_newline s -> block (String a s).
Proof. intros Ha Hs. split; [discriminate | now apply tail_cons]. Qed.

Lemma tail_cons_block (a : ascii) (s : string) :
  block s -> no_trailing_newline (String a s).
Proof. intros H. apply block_tail, (block_append_r (String a "") s H). Qed.

Lemma tail_append_block (a b : string) :
  block b -> no_trailing_newline (a ++ b).
Proof. intros H. apply block_tail, block_append_r, H. Qed.

Lemma tail_empty : no_trailing_newline "".
Proof. discriminate. Qed.

(** Peels literal characters and prefixes off a goal about the tail of a
    string built by concatenation. *)
Ltac peel_tail :=
  cbn [append];
  repeat first
    [ assumption
    | exact tail_empty
    | apply block_quote
    | apply block_tail, block_quote
    | apply tail_cons; [discriminate|]
    | apply block_cons; [discriminate|]
    | apply tail_append_block
    | apply block_append_r ].

(* ----------------------------------------------------------------- *)
(** ** Outcomes and loops *)

Lemma bind_ret {A B : Type} (m : outcome A) (k : A -> outcome B) (b : B) :
  bind m k = Ret b -> exists a, m = Ret a /\ k a = Ret b.
Proof. destruct m; simpl; [eauto | discriminate | discriminate]. Qed.

Lemma bind_out_of_fuel {A B : Type} (m : outcome A) (k : A -> outcome B) :
  bind m k = OutOfFuel ->
  m = OutOfFuel \/ exists a, m = Ret a /\ k a = OutOfFuel.
Proof. destruct m; simpl; [eauto | discriminate | auto]. Qed.

Lemma forM_ret {A B : Type} (body : A -> outcome B) (l : list A) (ys : list B) :
  forM l body = Ret ys -> Forall2 (fun x y => body x = Ret y) l ys.
Proof.
  revert ys. induction l as [|x l IH]; simpl; intros ys H.
  - injection H as <-. constructor.
  - apply bind_ret in H as (y & Hy & H).
    apply bind_ret in H as (ys' & Hys & H).
    injection H as <-. constructor; auto.
Qed.

Lemma forM_out_of_fuel {A B : Type} (body : A -> outcome B) (l : list A) :
  forM l body = OutOfFuel -> exists x, In x l /\ body x = OutOfFuel.
Proof.
  induction l as [|x l IH]; simpl; [discriminate|].
  intros H. apply bind_out_of_fuel in H as [H | (y & _ & H)].
  - eauto.
  - apply bind_out_of_fuel in H as [H | (ys & _ & H)]; [|discriminate].
    destruct (IH H) as (x' & Hin & Hx). eauto.
Qed.

Lemma forM_all {A B : Type} (P : B -> Prop) (body : A -> outcome B)
    (l : list A) (ys : list B) :
  (forall x y, In x l -> body x = Ret y -> P y) ->
  forM l body = Ret ys -> Forall P ys.
Proof.
  intros HP H. apply forM_ret in H.
  induction H as [|x y l ys Hxy _ IH]; constructor.
  - apply (HP x); [left; reflexivity | assumption].
  - apply IH. intros x' y' Hin. apply HP. right. assumption.
Qed.

Lemma forM_nonempty {A B : Type} (body : A -> outcome B) (l : list A) (ys : list B) :
  forM l body = Ret ys -> l <> [] -> ys <> [].
Proof.
  intros H Hl. apply forM_ret in H. destruct H; [congruence | discriminate].
Qed.

(* ----------------------------------------------------------------- *)
(** ** Scalars never carry a raw line break *)

Lemma digits_no_newline (u : Decimal.uint) :
  includes char_newline (DecimalString.NilEmpty.string_of_uint u) = false.
Proof. induction u; simpl; auto. Qed.

Lemma int_no_newline (i : Decimal.int) :
  includes char_newline (DecimalString.NilEmpty.string_of_int i) = false.
Proof. destruct i; simpl; apply digits_no_newline. Qed.

Lemma fraction_no_newline (f : Decimal.uint) :
  includes char_newline (string_of_fraction f) = false.
Proof.
  unfold string_of_fraction.
  destruct f; try reflexivity; rewrite includes_append, digits_no_newline; reflexivity.
Qed.

Lemma exponent_no_newline (e : Decimal.int) :
  includes char_newline (string_of_exponent e) = false.
Proof.
  destruct e; unfold string_of_exponent;
    rewrite includes_append, digits_no_newline; reflexivity.
Qed.

Lemma number_no_newline (n : JsNumber) :
  includes char_newline (String_of_number n) = false.
Proof.
  destruct n as [[i f | i f e] | | [|]]; simpl; try reflexivity.
  - now rewrite includes_append, int_no_newline, fraction_no_newline.
  - now rewrite !includes_append, int_no_newline, fraction_no_newline,
      exponent_no_newline.
Qed.

Lemma valueToToon_string_tail (s : string) :
  no_trailing_newline (Core.valueToToon_string s).
Proof.
  unfold Core.valueToToon_string.
  destruct (test_class _ s) eqn:E.
  - apply block_tail, block_quote.
  - apply no_newline_no_trailing.
    apply (test_class_includes _ char_newline) in E; [assumption|].
    left; reflexivity.
Qed.

Lemma toToon_string_tail (s : string) :
  no_trailing_newline (Core.toToon_string s).
Proof.
  unfold Core.toToon_string.
  destruct (test_class _ s) eqn:E.
  - apply block_tail, block_quote.
  - apply no_newline_no_trailing.
    apply (test_class_includes _ char_newline) in E; [assumption|].
    left; reflexivity.
Qed.

(* ----------------------------------------------------------------- *)
(** ** core.ts: table cells and rows keep the tail clean *)

Lemma wrap_if_any_tail (delims : list ascii) (s : string) :
  no_trailing_newline s -> no_trailing_newline (Core.wrap_if_any delims s).
Proof.
  intros H. unfold Core.wrap_if_any.
  destruct (existsb _ delims); [apply block_tail, block_quote | assumption].
Qed.

Lemma scalar_cell_tail (s : string) :
  no_trailing_newline s -> no_trailing_newline (Core.scalar_cell s).
Proof.
  intros H. unfold Core.scalar_cell.
  destruct (negb _); [|assumption].
  destruct (_ || _); [apply block_tail, block_quote | assumption].
Qed.

Section CoreCells.
Variable value00 : ToonValue -> outcome string.
Hypothesis value00_tail :
  forall v s, value00 v = Ret s -> no_trailing_newline s.

Lemma member00_tail (x : JsValue) (s : string) :
  Core.member00 value00 x = Ret s -> no_trailing_newline s.
Proof.
  destruct x as [v|name]; simpl; intros H.
  - exact (value00_tail _ _ H).
  - injection H as <-. unfold String_of_function. peel_tail.
Qed.

Lemma nested_table_cell_tail (value : list ToonValue) (s : string) :
  Core.nested_table_cell value00 value = Ret s -> no_trailing_newline s.
Proof.
  unfold Core.nested_table_cell. intros H.
  apply bind_ret in H as (dict & _ & H).
  apply bind_ret in H as (nestedRows & Hrows & H).
  injection H as <-. peel_tail.
  apply join_tails; [peel_tail|].
  refine (forM_all _ _ _ _ _ Hrows). intros nestedObj row _ Hrow.
  apply bind_ret in Hrow as (cells & Hcells & Hrow). injection Hrow as <-.
  apply join_tails; [peel_tail|].
  refine (forM_all _ _ _ _ _ Hcells). intros nk c _ Hc.
  unfold Core.nested_row_cell in Hc.
  apply bind_ret in Hc as (nvStr & Hnv & Hc). injection Hc as <-.
  apply wrap_if_any_tail, (member00_tail _ _ Hnv).
Qed.

Lemma plain_array_cell_tail (value : list ToonValue) (s : string) :
  Core.plain_array_cell value00 value = Ret s -> no_trailing_newline s.
Proof.
  unfold Core.plain_array_cell. intros H.
  apply bind_ret in H as (items & _ & H). injection H as <-.
  peel_tail.
Qed.

Lemma nested_object_cell_tail (value : list (string * ToonValue)) (s : string) :
  Core.nested_object_cell value00 value = Ret s -> no_trailing_newline s.
Proof.
  unfold Core.nested_object_cell. intros H.
  apply bind_ret in H as (items & _ & H). injection H as <-.
  peel_tail.
Qed.

Lemma cell_tail (obj : ToonValue) (k : string) (s : string) :
  Core.cell value00 obj k = Ret s -> no_trailing_newline s.
Proof.
  unfold Core.cell.
  assert (Scalar : forall x,
    bind (Core.member00 value00 x)
      (fun valueStr => Ret (Core.scalar_cell valueStr)) = Ret s ->
    no_trailing_newline s).
  { intros x H. apply bind_ret in H as (valueStr & Hv & H). injection H as <-.
    apply scalar_cell_tail, (member00_tail _ _ Hv). }
  destruct (nullish_to_empty (get_property obj k))
    as [[| | | |items|props]|name]; try apply Scalar.
  - destruct items as [|[] ?];
      first [apply nested_table_cell_tail | apply plain_array_cell_tail].
  - apply nested_object_cell_tail.
Qed.

Lemma rows_blocks (data : list ToonValue) (allKeys : list string)
    (body : list string) :
  Core.rows value00 data allKeys = Ret body -> Forall block body.
Proof.
  unfold Core.rows. intros H.
  refine (forM_all _ _ _ _ _ H). intros obj row _ Hrow.
  apply bind_ret in Hrow as (cells & Hcells & Hrow). injection Hrow as <-.
  peel_tail. apply join_tails; [peel_tail|].
  refine (forM_all _ _ _ _ _ Hcells). intros k c _ Hc.
  exact (cell_tail _ _ _ Hc).
Qed.
End CoreCells.

(* ----------------------------------------------------------------- *)
(** ** core.ts: every encoder returns a block *)

Lemma concat_blocks (groups : list (list string)) :
  Forall (fun g => g <> [] /\ Forall block g) groups ->
  groups <> [] ->
  List.concat groups <> [] /\ Forall block (List.concat groups).
Proof.
  intros H Hne. split.
  - destruct groups as [|g gs]; [congruence|].
    inversion H as [|? ? [Hg _] _]; subst. simpl.
    destruct g; [congruence | discriminate].
  - clear Hne. induction H as [|g gs [_ Hg] _ IH]; simpl; [constructor|].
    apply Forall_app. split; assumption.
Qed.

Lemma Forall_one {A : Type} (P : A -> Prop) (x : A) : P x -> Forall P [x].
Proof. intros H. constructor; [exact H | constructor]. Qed.

Lemma Forall_two {A : Type} (P : A -> Prop) (x y : A) :
  P x -> P y -> Forall P [x; y].
Proof. intros Hx Hy. constructor; [exact Hx | now apply Forall_one]. Qed.

Lemma core_blocks (fuel : nat) : core_returns_blocks fuel.
Proof.
  induction fuel as [|fuel (IHd & IHl & IHt & IHv)].
  { split; [|split; [|split]]; intros; discriminate. }
  split; [|split; [|split]].
  - (* dictToToon *)
    intros data indent level s H. simpl in H.
    destruct data as [|entry data']; [injection H as <-; peel_tail|].
    apply bind_ret in H as (lines & Hlines & H). injection H as <-.
    assert (G : Forall (fun g => g <> [] /\ Forall block g) lines).
    { refine (forM_all _ _ _ _ _ Hlines). intros [key value] g _ Hg.
      assert (Simple :
        bind (Core.valueToToon fuel value indent (level + 1))
          (fun valueStr =>
             Ret [repeat_space (indent * level) ++ key ++ String ":" (String " " valueStr)])
        = Ret g -> g <> [] /\ Forall block g).
      { intros E. apply bind_ret in E as (valueStr & Hv & E). injection E as <-.
        split; [discriminate|]. apply Forall_one.
        apply IHv in Hv. peel_tail. }
      destruct value as [| | | |[|first items]|[|p props]]; try exact (Simple Hg).
      - destruct (is_plain_object first).
        + apply bind_ret in Hg as (t & Ht & Hg). injection Hg as <-.
          split; [discriminate|]. apply Forall_one. exact (IHt _ _ _ _ _ Ht).
        + apply bind_ret in Hg as (l & Hl & Hg). injection Hg as <-.
          split; [discriminate|]. apply Forall_two; [peel_tail|].
          exact (IHl _ _ _ _ Hl).
      - apply bind_ret in Hg as (d & Hd & Hg). injection Hg as <-.
        split; [discriminate|]. apply Forall_two; [peel_tail|].
        exact (IHd _ _ _ _ Hd). }
    apply concat_blocks in G as [G1 G2].
    + now apply join_blocks.
    + apply (forM_nonempty _ _ _ Hlines). discriminate.
  - (* listToToon *)
    intros data indent level s H. simpl in H.
    destruct data as [|first data']; [injection H as <-; peel_tail|].
    destruct (is_plain_object first); [exact (IHt _ _ _ _ _ H)|].
    apply bind_ret in H as (lines & Hlines & H). injection H as <-.
    apply join_blocks.
    + apply (forM_nonempty _ _ _ Hlines). discriminate.
    + refine (forM_all _ _ _ _ _ Hlines). intros item line _ Hline.
      apply bind_ret in Hline as (valueStr & Hv & Hline). injection Hline as <-.
      apply IHv in Hv. peel_tail.
  - (* listOfObjectsToToon *)
    intros key data indent level s H. simpl in H.
    assert (Fallback :
      Core.listToToon fuel data indent level = Ret s -> block s) by apply IHl.
    destruct data as [|[| | | | |props] data']; try exact (Fallback H).
    clear Fallback. apply bind_ret in H as (dict & _ & H).
    destruct (map fst dict) as [|k ks] eqn:Ekeys; [injection H as <-; peel_tail|].
    apply bind_ret in H as (body & Hbody & H). injection H as <-.
    apply join_blocks; [discriminate|]. constructor.
    + destruct (String.eqb key ""); peel_tail.
    + apply (rows_blocks _ (fun v s => IHv v 0 0 s) _ _ _ Hbody).
  - (* valueToToon *)
    intros value indent level s H. simpl in H.
    destruct value as [|b|n|str|items|props].
    + injection H as <-. peel_tail.
    + injection H as <-. destruct b; peel_tail.
    + injection H as <-. apply no_newline_no_trailing, number_no_newline.
    + injection H as <-. apply valueToToon_string_tail.
    + apply bind_ret in H as (l & Hl & H). injection H as <-.
      apply tail_cons_block, (IHl _ _ _ _ Hl).
    + apply bind_ret in H as (d & Hd & H). injection H as <-.
      apply tail_cons_block, (IHd _ _ _ _ Hd).
Qed.

(* ----------------------------------------------------------------- *)
(** ** core.ts: a call budget of three calls per nesting level suffices *)

Lemma list_max_ge (l : list nat) (n : nat) : In n l -> n <= list_max l.
Proof.
  induction l as [|m l IH]; simpl; [tauto|].
  intros [-> | H]; [lia | apply IH in H; lia].
Qed.

Lemma depth_VArray (items : list ToonValue) :
  depth (VArray items) = S (list_max (map depth items)).
Proof. reflexivity. Qed.

Lemma depth_VObject (props : list (string * ToonValue)) :
  depth (VObject props) = S (list_max (map (fun p => depth (snd p)) props)).
Proof. reflexivity. Qed.

Lemma depth_item (items : list ToonValue) (x : ToonValue) :
  In x items -> depth x <= list_max (map depth items).
Proof. intros H. apply list_max_ge, in_map, H. Qed.

Lemma depth_prop (props : list (string * ToonValue)) (k : string) (v : ToonValue) :
  In (k, v) props -> depth v <= list_max (map (fun p => depth (snd p)) props).
Proof.
  intros H. apply list_max_ge.
  change (depth v) with ((fun p => depth (snd p)) (k, v)). apply in_map, H.
Qed.

Lemma lookup_in {A : Type} (k : string) (o : list (string * A)) (v : A) :
  lookup k o = Some v -> exists k', In (k', v) o.
Proof.
  induction o as [|[k' v'] o IH]; simpl; [discriminate|].
  destruct (String.eqb k' k).
  - intros [= ->]. eauto.
  - intros H. destruct (IH H) as (k'' & Hin). eauto.
Qed.

Lemma depth_own_property (obj : ToonValue) (k : string) (v : ToonValue) :
  own_property obj k = Some v -> depth v <= depth obj.
Proof.
  destruct obj as [| | |s|items|props]; simpl; try discriminate.
  - destruct (String.eqb k "length"); [intros [= <-]; simpl; lia|].
    destruct (array_index k); [|discriminate].
    destruct (String.get _ s); [|discriminate]. intros [= <-]. simpl. lia.
  - destruct (String.eqb k "length"); [intros [= <-]; simpl; lia|].
    destruct (array_index k); [|discriminate].
    intros H. apply nth_error_In, depth_item in H. lia.
  - intros H. apply lookup_in in H as (k' & H). apply depth_prop in H. lia.
Qed.

(** A property read gives a value of the tree only from an own property or
    from the accessor [__proto__]. *)
Lemma get_property_data (obj : ToonValue) (k : string) (v : ToonValue) :
  get_property obj k = Some (JsData v) ->
  own_property obj k = Some v
  \/ exists p, prototype_of obj = Some p /\ v = prototype_value p.
Proof.
  unfold get_property.
  destruct (own_property obj k) as [x|]; [intros [= <-]; now left|].
  destruct (prototype_of obj) as [p|]; [|discriminate].
  unfold inherited. destruct (own_function p k); [discriminate|].
  destruct (own_function Object_prototype k); [discriminate|].
  destruct (String.eqb k "__proto__"); [|discriminate].
  intros [= <-]. right. eauto.
Qed.

Lemma nullish_data (x : option JsValue) (v : ToonValue) :
  nullish_to_empty x = JsData v -> x = Some (JsData v) \/ v = VString "".
Proof.
  destruct x as [[[]|name]|]; simpl; intros [= <-]; auto.
Qed.

Lemma depth_nullish (obj : ToonValue) (k : string) (v : ToonValue) :
  nullish_to_empty (get_property obj k) = JsData v ->
  depth v <= depth obj \/ v = VObject [] \/ v = VArray [].
Proof.
  intros H. apply nullish_data in H as [H | ->]; [|left; simpl; lia].
  apply get_property_data in H as [H | (p & _ & ->)].
  - left. exact (depth_own_property _ _ _ H).
  - right. destruct p; simpl; auto.
Qed.

Lemma depth_nullish_object (obj : ToonValue) (k : string) (v : ToonValue) :
  is_plain_object obj = true ->
  nullish_to_empty (get_property obj k) = JsData v ->
  depth v <= depth obj.
Proof.
  intros Hobj H. destruct (depth_nullish _ _ _ H) as [Hd | [-> | ->]];
    [exact Hd | |]; destruct obj; try discriminate; simpl; lia.
Qed.

Lemma bind_fuel {A B : Type} (m : outcome A) (k : A -> outcome B) :
  m <> OutOfFuel -> (forall a, m = Ret a -> k a <> OutOfFuel) ->
  bind m k <> OutOfFuel.
Proof.
  intros Hm Hk E. apply bind_out_of_fuel in E as [E | (a & Ha & E)];
    [contradiction | exact (Hk a Ha E)].
Qed.

Lemma forM_fuel {A B : Type} (body : A -> outcome B) (l : list A) :
  (forall x, In x l -> body x <> OutOfFuel) -> forM l body <> OutOfFuel.
Proof.
  intros H E. apply forM_out_of_fuel in E as (x & Hin & E). exact (H x Hin E).
Qed.

Lemma collect_keys_fuel (only_objects : bool) (rows : list ToonValue)
    (dict : list (string * bool)) :
  collect_keys only_objects rows dict <> OutOfFuel.
Proof.
  revert dict. induction rows as [|obj rows IH]; intros dict; simpl; [discriminate|].
  destruct (only_objects && negb (is_plain_object obj)); [apply IH|].
  destruct obj; simpl; try discriminate; apply IH.
Qed.

Section CoreCellsFuel.
Variable value00 : ToonValue -> outcome string.

Lemma cell_fuel (obj : ToonValue) (k : string) :
  (forall v, depth v <= depth obj -> value00 v <> OutOfFuel) ->
  Core.cell value00 obj k <> OutOfFuel.
Proof.
  intros Hv. unfold Core.cell.
  assert (Scalar : forall x,
    (forall v, x = JsData v -> depth v <= depth obj) ->
    bind (Core.member00 value00 x)
      (fun valueStr => Ret (Core.scalar_cell valueStr)) <> OutOfFuel).
  { intros [v|name] Hle; simpl; [|discriminate].
    apply bind_fuel; [apply Hv, Hle; reflexivity | discriminate]. }
  destruct (nullish_to_empty (get_property obj k))
    as [[| | | |items|props]|name] eqn:E;
    try (apply Scalar; intros v [= <-]; simpl; lia);
    try (apply Scalar; intros v; discriminate).
  - assert (Plain :
      depth (VArray items) <= depth obj \/ items = [] ->
      Core.plain_array_cell value00 items <> OutOfFuel).
    { intros Hd. unfold Core.plain_array_cell. apply bind_fuel; [|discriminate].
      apply forM_fuel. intros x Hx. destruct Hd as [Hd | ->]; [|destruct Hx].
      apply Hv. apply depth_item in Hx. rewrite depth_VArray in Hd. lia. }
    apply depth_nullish in E.
    assert (Hd : depth (VArray items) <= depth obj \/ items = []).
    { destruct E as [E | [E | E]]; [now left | discriminate |].
      injection E as ->. now right. }
    destruct items as [|[| | | | |first] rest]; try exact (Plain Hd).
    destruct Hd as [Hd | Hd]; [|discriminate].
    unfold Core.nested_table_cell.
    apply bind_fuel; [apply collect_keys_fuel|]. intros dict _.
    apply bind_fuel; [|discriminate].
    apply forM_fuel. intros nestedObj Hin. apply filter_In in Hin as [Hin Hobj].
    apply bind_fuel; [|discriminate].
    apply forM_fuel. intros nk _. unfold Core.nested_row_cell.
    apply bind_fuel; [|discriminate].
    destruct (nullish_to_empty (get_property nestedObj nk)) as [nv|name] eqn:En;
      simpl; [|discriminate].
    apply Hv. pose proof (depth_nullish_object _ _ _ Hobj En).
    apply depth_item in Hin. rewrite depth_VArray in Hd. lia.
  - unfold Core.nested_object_cell. apply bind_fuel; [|discriminate].
    apply forM_fuel. intros [nk nv] Hin. apply bind_fuel; [|discriminate].
    apply depth_nullish in E. destruct E as [Hd | [E | E]];
      [|injection E as ->; destruct Hin | discriminate].
    apply Hv. apply depth_prop in Hin. rewrite depth_VObject in Hd. lia.
Qed.

Lemma rows_fuel (data : list ToonValue) (allKeys : list string) :
  (forall v, depth v <= list_max (map depth data) -> value00 v <> OutOfFuel) ->
  Core.rows value00 data allKeys <> OutOfFuel.
Proof.
  intros Hv. unfold Core.rows. apply forM_fuel. intros obj Hin.
  apply bind_fuel; [|discriminate]. apply forM_fuel. intros k _.
  apply cell_fuel. intros v Hle. apply Hv.
  apply depth_item in Hin. lia.
Qed.
End CoreCellsFuel.

Lemma core_enough_fuel (fuel : nat) : core_budget fuel.
Proof.
  induction fuel as [|fuel (IHd & IHl & IHt & IHv)].
  { split; [|split; [|split]]; intros; lia. }
  split; [|split; [|split]].
  - (* dictToToon *)
    intros data indent level Hfuel. simpl.
    destruct data as [|entry data']; [discriminate|].
    apply bind_fuel; [|discriminate].
    apply forM_fuel. intros [key value] Hin.
    apply depth_prop in Hin.
    assert (Simple :
      bind (Core.valueToToon fuel value indent (level + 1))
        (fun valueStr =>
           Ret [repeat_space (indent * level) ++ key ++ String ":" (String " " valueStr)])
      <> OutOfFuel).
    { apply bind_fuel; [|discriminate]. apply IHv. lia. }
    destruct value as [| | | |[|first items]|[|p props]]; try exact Simple.
    + rewrite depth_VArray in Hin.
      destruct first; simpl is_plain_object; cbv iota;
        (apply bind_fuel; [|discriminate]);
        first [apply IHl; lia | apply IHt; lia].
    + rewrite depth_VObject in Hin.
      apply bind_fuel; [|discriminate]. apply IHd. lia.
  - (* listToToon *)
    intros data indent level Hfuel. simpl.
    destruct data as [|first data']; [discriminate|].
    assert (Items :
      bind (forM (first :: data') (fun item =>
              valueStr <- Core.valueToToon fuel item indent level ;;
              Ret (repeat_space (indent * level) ++ String "-" (String " " valueStr))))
        (fun lines => Ret (join NL lines)) <> OutOfFuel).
    { apply bind_fuel; [|discriminate]. apply forM_fuel. intros item Hin.
      apply bind_fuel; [|discriminate]. apply IHv.
      apply depth_item in Hin. lia. }
    destruct first; try exact Items.
    simpl is_plain_object. cbv iota. apply IHt. lia.
  - (* listOfObjectsToToon *)
    intros key first data indent level Hfuel. simpl.
    apply bind_fuel; [apply collect_keys_fuel|]. intros dict _.
    destruct (map fst dict) as [|k ks]; [discriminate|].
    apply bind_fuel; [|discriminate].
    apply rows_fuel. intros v Hle. apply IHv. lia.
  - (* valueToToon *)
    intros value indent level Hfuel. simpl.
    destruct value as [| | | |items|props]; try discriminate.
    + rewrite depth_VArray in Hfuel.
      apply bind_fuel; [|discriminate]. apply IHl. lia.
    + rewrite depth_VObject in Hfuel.
      apply bind_fuel; [|discriminate]. apply IHd. lia.
Qed.

(** [toToon] never exhausts a budget of three calls per nesting level. *)
Lemma toToon_enough_fuel (v : ToonValue) (indent fuel : nat) :
  3 * depth v <= fuel -> Core.toToon fuel v indent <> OutOfFuel.
Proof.
  intros H. destruct v as [| | | |items|props]; simpl; try discriminate.
  - rewrite depth_VArray in H. apply (core_enough_fuel fuel). lia.
  - rewrite depth_VObject in H. apply (core_enough_fuel fuel). lia.
Qed.

(* ----------------------------------------------------------------- *)
(** ** core.ts: the outcome does not depend on the budget once it suffices *)

Lemma settles_refl {A : Type} (a : outcome A) : settles a a.
Proof. right. reflexivity. Qed.

Lemma settles_trans {A : Type} (a b c : outcome A) :
  settles a b -> settles b c -> settles a c.
Proof.
  intros [-> | ->]; [left; reflexivity|]. auto.
Qed.

Lemma bind_settles {A B : Type} (m m' : outcome A) (k k' : A -> outcome B) :
  settles m m' -> (forall a, settles (k a) (k' a)) ->
  settles (bind m k) (bind m' k').
Proof.
  intros [-> | <-] Hk; [left; reflexivity|].
  destruct m; simpl; [apply Hk | right; reflexivity | left; reflexivity].
Qed.

Lemma forM_settles {A B : Type} (body body' : A -> outcome B) (l : list A) :
  (forall x, settles (body x) (body' x)) ->
  settles (forM l body) (forM l body').
Proof.
  intros H. induction l as [|x l IH]; simpl; [apply settles_refl|].
  apply bind_settles; [apply H|]. intros y.
  apply bind_settles; [apply IH|]. intros ys. apply settles_refl.
Qed.

Section CoreCellsSettle.
Variables value00 value00' : ToonValue -> outcome string.
Hypothesis value00_settles : forall v, settles (value00 v) (value00' v).

Lemma member00_settles (x : JsValue) :
  settles (Core.member00 value00 x) (Core.member00 value00' x).
Proof.
  destruct x as [v|name]; simpl; [apply value00_settles | apply settles_refl].
Qed.

Lemma cell_settles (obj : ToonValue) (k : string) :
  settles (Core.cell value00 obj k) (Core.cell value00' obj k).
Proof.
  unfold Core.cell.
  destruct (nullish_to_empty (get_property obj k))
    as [[| | | |items|props]|name];
    try (apply bind_settles; [apply member00_settles | intros; apply settles_refl]).
  - assert (Plain : settles (Core.plain_array_cell value00 items)
                            (Core.plain_array_cell value00' items)).
    { unfold Core.plain_array_cell.
      apply bind_settles; [|intros; apply settles_refl].
      apply forM_settles, value00_settles. }
    destruct items as [|[| | | | |first] rest]; try exact Plain.
    unfold Core.nested_table_cell.
    apply bind_settles; [apply settles_refl|]. intros dict.
    apply bind_settles; [|intros; apply settles_refl].
    apply forM_settles. intros nestedObj.
    apply bind_settles; [|intros; apply settles_refl].
    apply forM_settles. intros nk. unfold Core.nested_row_cell.
    apply bind_settles; [apply member00_settles | intros; apply settles_refl].
  - unfold Core.nested_object_cell.
    apply bind_settles; [|intros; apply settles_refl].
    apply forM_settles. intros [nk nv].
    apply bind_settles; [apply value00_settles | intros; apply settles_refl].
Qed.

Lemma rows_settles (data : list ToonValue) (allKeys : list string) :
  settles (Core.rows value00 data allKeys) (Core.rows value00' data allKeys).
Proof.
  unfold Core.rows. apply forM_settles. intros obj.
  apply bind_settles; [|intros; apply settles_refl].
  apply forM_settles. intros k. apply cell_settles.
Qed.
End CoreCellsSettle.

Lemma core_settled_step (fuel fuel' : nat) :
  core_settled fuel fuel' -> core_settled (S fuel) (S fuel').
Proof.
  intros (IHd & IHl & IHt & IHv).
  split; [|split; [|split]].
  - intros data indent level. simpl.
    destruct data as [|entry data']; [apply settles_refl|].
    apply bind_settles; [|intros; apply settles_refl].
    apply forM_settles. intros [key value].
    destruct value as [| | | |[|first items]|[|p props]];
      try (apply bind_settles; [apply IHv | intros; apply settles_refl]).
    + destruct (is_plain_object first);
        (apply bind_settles; [|intros; apply settles_refl]);
        [apply IHt | apply IHl].
    + apply bind_settles; [apply IHd | intros; apply settles_refl].
  - intros data indent level. simpl.
    destruct data as [|first data']; [apply settles_refl|].
    destruct (is_plain_object first); [apply IHt|].
    apply bind_settles; [|intros; apply settles_refl].
    apply forM_settles. intros item.
    apply bind_settles; [apply IHv | intros; apply settles_refl].
  - intros key data indent level. simpl.
    destruct data as [|[| | | | |props] data']; try apply IHl.
    apply bind_settles; [apply settles_refl|]. intros dict.
    destruct (map fst dict) as [|k ks]; [apply settles_refl|].
    apply bind_settles; [|intros; apply settles_refl].
    apply rows_settles. intros v. apply IHv.
  - intros value indent level. simpl.
    destruct value as [| | | |items|props]; try apply settles_refl.
    + apply bind_settles; [apply IHl | intros; apply settles_refl].
    + apply bind_settles; [apply IHd | intros; apply settles_refl].
Qed.

Lemma core_step_settles (fuel : nat) : core_settled fuel (S fuel).
Proof.
  induction fuel as [|fuel IH]; [|apply core_settled_step, IH].
  split; [|split; [|split]]; intros; left; reflexivity.
Qed.

Lemma toToon_step_settles (fuel : nat) (v : ToonValue) (indent : nat) :
  settles (Core.toToon fuel v indent) (Core.toToon (S fuel) v indent).
Proof.
  destruct v; try apply settles_refl; apply (core_step_settles fuel).
Qed.

Lemma toToon_settles (fuel fuel' : nat) (v : ToonValue) (indent : nat) :
  fuel <= fuel' ->
  settles (Core.toToon fuel v indent) (Core.toToon fuel' v indent).
Proof.
  induction 1 as [|fuel' _ IH]; [apply settles_refl|].
  eapply settles_trans; [exact IH | apply toToon_step_settles].
Qed.

(** Two runs of [toToon] on the same tree and indent width that both finish
    agree, whatever budgets they were given. *)
Lemma toToon_budget_independent (fuel1 fuel2 : nat) (v : ToonValue)
    (indent : nat) (r1 r2 : outcome string) :
  Core.toToon fuel1 v indent = r1 -> r1 <> OutOfFuel ->
  Core.toToon fuel2 v indent = r2 -> r2 <> OutOfFuel ->
  r1 = r2.
Proof.
  intros H1 N1 H2 N2.
  destruct (Nat.le_ge_cases fuel1 fuel2) as [L | L].
  - destruct (toToon_settles _ _ v indent L) as [E | E]; congruence.
  - destruct (toToon_settles _ _ v indent L) as [E | E]; congruence.
Qed.

(* ================================================================= *)
(** * The claims *)

(* ----------------------------------------------------------------- *)
(** ** C9: no trailing line break *)

Lemma endsWith_false (c : ascii) (s : string) :
  last_char s <> Some c -> endsWith c s = false.
Proof.
  unfold endsWith. destruct (last_char s) as [a|]; [|reflexivity].
  intros H. destruct (Ascii.eqb a c) eqn:E; [|reflexivity].
  apply Ascii.eqb_eq in E. congruence.
Qed.

Lemma toToon_tail (fuel : nat) (data : ToonValue) (indent : nat) (s : string) :
  Core.toToon fuel data indent = Ret s -> no_trailing_newline s.
Proof.
  destruct (core_blocks fuel) as (Hd & Hl & _ & _).
  destruct data as [|b|n|str|items|props]; simpl; intros H.
  - injection H as <-. discriminate.
  - injection H as <-. destruct b; discriminate.
  - injection H as <-. apply no_newline_no_trailing, number_no_newline.
  - injection H as <-. apply toToon_string_tail.
  - exact (block_tail _ (Hl _ _ _ _ H)).
  - exact (block_tail _ (Hd _ _ _ _ H)).
Qed.

(** With three calls per nesting level [toToon] finishes: it returns a
    string that does not end with a line break, or it raises. *)
Lemma toToon_finishes (v : ToonValue) (indent fuel : nat) :
  3 * depth v <= fuel ->
  (exists s, Core.toToon fuel v indent = Ret s /\ endsWith char_newline s = false)
  \/ (exists msg, Core.toToon fuel v indent = Throw msg).
Proof.
  intros H. pose proof (toToon_enough_fuel v indent fuel H) as N.
  destruct (Core.toToon fuel v indent) as [s|msg|] eqn:E.
  - left. exists s. split; [reflexivity|].
    apply endsWith_false, (toToon_tail fuel v indent), E.
  - right. eauto.
  - congruence.
Qed.

(** C9.  Whatever tree and budget [toToon], [dictToToon], [listToToon] or
    [listOfObjectsToToon] of core.ts is called with, a string it returns
    does not end with a line break. *)
Theorem encode_no_trailing_newline (fuel : nat) (c : Core.call) (s : string) :
  Core.run fuel c = Ret s -> endsWith char_newline s = false.
Proof.
  intros H. apply endsWith_false.
  destruct (core_blocks fuel) as (Hd & Hl & Ht & _).
  destruct c as [data indent|data indent level|data indent level
                |key data indent level]; simpl in H.
  - (* the exported entry point: scalars are handled in place *)
    exact (toToon_tail _ _ _ _ H).
  - (* a mapping block *)
    apply Hd in H. destruct H as [_ Htail]. exact Htail.
  - (* a sequence block *)
    apply Hl in H. destruct H as [_ Htail]. exact Htail.
  - (* a table block *)
    apply Ht in H. destruct H as [_ Htail]. exact Htail.
Qed.

Lemma encode_no_trailing_newline_witness :
  Core.run 4 (Core.Call_toToon
                (VObject [("users",
                           VArray [VObject [("name", VString "Alice")];
                                   VObject [("name", VString "Bob")]])]) 2)
  = Ret ("users[2]{name}:" ++ NL ++ "  Alice" ++ NL ++ "  Bob")
  /\ endsWith char_newline
       ("users[2]{name}:" ++ NL ++ "  Alice" ++ NL ++ "  Bob") = false.
Proof.
  split; [reflexivity|].
  apply (encode_no_trailing_newline 4
           (Core.Call_toToon
              (VObject [("users",
                         VArray [VObject [("name", VString "Alice")];
                                 VObject [("name", VString "Bob")]])]) 2)).
  reflexivity.
Defined.

(* ----------------------------------------------------------------- *)
(** ** C2: decoding is not implemented *)

(** C2.  [fromToon] raises the "not yet implemented" error on every input
    string, the empty one included, and returns no value. *)
Theorem fromToon_always_throws (toonStr : string) :
  Core.fromToon toonStr = Throw "Error: TOON parsing is not yet implemented"
  /\ forall v, Core.fromToon toonStr <> Ret v.
Proof. split; [reflexivity | discriminate]. Qed.

(* ----------------------------------------------------------------- *)
(** ** C1: one escaping policy at every call site *)

(** [valueToToon] applies the control-character policy: a string without a
    line break, tab or carriage return is returned as it is. *)
Lemma valueToToon_bare (fuel : nat) (s : string) (indent level : nat) :
  test_class [char_newline; char_tab; char_cr] s = false ->
  Core.valueToToon (S fuel) (VString s) indent level = Ret s.
Proof. intros H. simpl. unfold Core.valueToToon_string. now rewrite H. Qed.

(** The top-level [toToon] quotes on a colon, a pipe or a double quote. *)
Lemma toToon_quotes_delimiters (fuel : nat) (s : string) (indent : nat) :
  test_class [char_newline; char_tab; char_colon; char_pipe; char_dquote] s = true ->
  exists escaped, Core.toToon fuel (VString s) indent = Ret (quote escaped).
Proof. intros H. simpl. unfold Core.toToon_string. rewrite H. eauto. Qed.

Lemma test_class_incl (cls cls' : list ascii) (s : string) :
  incl cls cls' -> test_class cls s = true -> test_class cls' s = true.
Proof.
  intros Hincl. induction s as [|a s IH]; simpl; [discriminate|].
  intros H. apply orb_true_iff in H as [H | H].
  - apply existsb_exists in H as (c & Hin & Hc).
    apply orb_true_iff. left. apply existsb_exists. exists c. auto.
  - rewrite (IH H). apply orb_true_r.
Qed.

Lemma length_append (a b : string) :
  String.length (a ++ b) = String.length a + String.length b.
Proof. induction a as [|x a IH]; simpl; [reflexivity | now rewrite IH]. Qed.

Lemma length_replaceAll (c : ascii) (by_ s : string) :
  1 <= String.length by_ ->
  String.length s <= String.length (replaceAll c by_ s).
Proof.
  intros H. induction s as [|a s IH]; simpl; [lia|].
  rewrite length_append. destruct (Ascii.eqb a c); simpl; lia.
Qed.

(** X12.  On every string that holds a colon, a pipe or a double quote and no
    control character the two call sites of core.ts disagree. *)
Lemma top_level_policy_disagrees (fuel : nat) (s : string) (indent level : nat) :
  test_class [char_newline; char_tab; char_cr] s = false ->
  test_class [char_colon; char_pipe; char_dquote] s = true ->
  Core.toToon fuel (VString s) indent
  <> Core.valueToToon (S fuel) (VString s) indent level.
Proof.
  intros Hctl Hdelim. rewrite (valueToToon_bare _ _ _ _ Hctl). simpl.
  unfold Core.toToon_string.
  assert (Q : test_class
                [char_newline; char_tab; char_colon; char_pipe; char_dquote] s
              = true).
  { revert Hdelim. apply test_class_incl.
    intros c [<- | [<- | [<- | []]]]; simpl; tauto. }
  rewrite Q. intros E. injection E as E.
  apply (f_equal String.length) in E.
  unfold quote in E. rewrite !length_append in E. simpl in E.
  pose proof (length_replaceAll char_backslash (BS ++ BS) s) as L1.
  pose proof (length_replaceAll char_dquote (BS ++ DQ)
                (replaceAll char_backslash (BS ++ BS) s)) as L2.
  pose proof (length_replaceAll char_newline (BS ++ "n")
                (replaceAll char_dquote (BS ++ DQ)
                   (replaceAll char_backslash (BS ++ BS) s))) as L3.
  simpl in L1, L2, L3. lia.
Qed.

(** C1 (fails on the code).  The string [a:b] has no control character;
    [valueToToon] emits it bare, the top-level [toToon] of the same file
    wraps it in double quotes. *)
Theorem toToon_top_level_quotes_colon (fuel indent : nat) :
  Core.toToon fuel (VString "a:b") indent = Ret (DQ ++ "a:b" ++ DQ)
  /\ Core.valueToToon (S fuel) (VString "a:b") indent 0 = Ret "a:b".
Proof. split; reflexivity. Qed.

(* ----------------------------------------------------------------- *)
(** ** C4: empty containers as mapping values *)

(** C4 (fails on the code).  An empty array or empty object under a key goes
    through the simple-value branch of [dictToToon], but [valueToToon]
    starts arrays and objects with a line break: the literal lands on the
    line after [key: ], at column zero. *)
Theorem dictToToon_empty_container_breaks_line
    (fuel : nat) (key : string) (indent level : nat) :
  Core.dictToToon (S (S (S fuel))) [(key, VArray [])] indent level
  = Ret (repeat_space (indent * level) ++ key ++ ": " ++ NL ++ "[]")
  /\ Core.dictToToon (S (S (S fuel))) [(key, VObject [])] indent level
     = Ret (repeat_space (indent * level) ++ key ++ ": " ++ NL ++ "{}").
Proof. split; reflexivity. Qed.

(* ----------------------------------------------------------------- *)
(** ** C8: quoting is idempotent *)

Lemma startsWith_quote (s : string) : startsWith char_dquote (quote s) = true.
Proof. reflexivity. Qed.

Lemma endsWith_quote (s : string) : endsWith char_dquote (quote s) = true.
Proof.
  unfold endsWith, quote. rewrite !last_char_append. reflexivity.
Qed.

(** The scalar-cell path (core.ts lines 231-242) leaves a quoted value as it
    is, and wrapping twice is wrapping once. *)
Lemma scalar_cell_keeps_quoted (s : string) :
  Core.scalar_cell (quote s) = quote s.
Proof.
  unfold Core.scalar_cell. now rewrite startsWith_quote, endsWith_quote.
Qed.

Lemma scalar_cell_cases (s : string) :
  Core.scalar_cell s = s \/ exists t, Core.scalar_cell s = quote t.
Proof.
  unfold Core.scalar_cell.
  destruct (negb _); [|now left].
  destruct (_ || _); [right; eauto | now left].
Qed.

(** X13.  Applying the scalar-cell quoting twice is applying it once. *)
Lemma scalar_cell_idempotent (s : string) :
  Core.scalar_cell (Core.scalar_cell s) = Core.scalar_cell s.
Proof.
  destruct (scalar_cell_cases s) as [E | (t & E)]; rewrite E.
  - exact E.
  - apply scalar_cell_keeps_quoted.
Qed.

(** X15.  The nested-cell paths (lines 203-205 and 224-226) wrap again. *)
Lemma wrap_if_any_rewraps (delims : list ascii) (s : string) :
  existsb (fun c => includes c s) delims = true ->
  Core.wrap_if_any delims (quote s) = quote (quote s).
Proof.
  intros H. unfold Core.wrap_if_any.
  replace (existsb (fun c => includes c (quote s)) delims) with true; [reflexivity|].
  symmetry. apply existsb_exists. apply existsb_exists in H as (c & Hin & Hc).
  exists c. split; [assumption|].
  unfold quote. rewrite !includes_append, Hc. apply orb_true_r.
Qed.

(** C8 (fails on the code).  The value [x<newline>,y] under key [b] of an
    object cell: [valueToToon] returns it quoted, the comma check of line 224
    wraps it again, and the emitted value starts with two double quotes. *)
Theorem nested_cell_is_wrapped_twice (fuel : nat) :
  Core.toToon (S (S (S fuel)))
    (VArray [VObject [("a", VObject [("b", VString ("x" ++ NL ++ ",y"))])]]) 2
  = Ret ("[1]{a}:" ++ NL ++ "  {b:" ++ DQ ++ DQ ++ "x" ++ BS ++ "n,y" ++ DQ ++ DQ ++ "}").
Proof. reflexivity. Qed.

(* ----------------------------------------------------------------- *)
(** ** C10: null cells and absent keys in compact table rows *)




(** A key the row lacks but inherits is not a missing key: the cell of the
    second row under [constructor] prints the inherited function. *)
Example inherited_member_is_printed (fuel : nat) :
  Core.toToon (S (S (S fuel)))
    (VArray [VObject [("constructor", VNumber (number_of_nat 1))];
             VObject [("a", VNumber (number_of_nat 2))]]) 2
  = Ret ("[2]{constructor,a}:" ++ NL ++ "  1,"
           ++ NL ++ "  function Object() { [native code] },2").
Proof. reflexivity. Qed.

(** A key [__proto__] a row holds (as [JSON.parse] builds it) gets no
    column: the key dictionary never has a property of that name. *)
Example proto_key_gets_no_column (fuel : nat) :
  Core.toToon (S (S (S fuel)))
    (VArray [VObject [("__proto__", VNumber (number_of_nat 1));
                      ("a", VNumber (number_of_nat 2))]]) 2
  = Ret ("[1]{a}:" ++ NL ++ "  2").
Proof. reflexivity. Qed.


(* ----------------------------------------------------------------- *)
(** ** C5: one table layout *)

(** C5 (fails on the code).  On the example of the doc comment of [toToon],
    core.ts and the Go port part_002 return the compact layout; part_000 and
    go/totoon.go return the pipe table, which is the string the doc comment
    of core.ts itself announces. *)
Theorem table_layouts_differ (fuel : nat) :
  let data := VArray [VObject [("name", VString "Alice")];
                      VObject [("name", VString "Bob")]] in
  let compact := "[2]{name}:" ++ NL ++ "  Alice" ++ NL ++ "  Bob" in
  let pipe := "name" ++ NL ++ "---" ++ NL ++ "Alice" ++ NL ++ "Bob" in
  Core.toToon (S (S (S fuel))) data 2 = Ret compact
  /\ GoPart002.ToToon stored_order (S (S (S fuel))) data = Ret compact
  /\ Part000.toToon (S (S (S fuel))) data 2 = Ret pipe
  /\ GoTotoon.ToToon stored_order (S (S (S fuel))) data = Ret pipe
  /\ compact <> pipe.
Proof. repeat split; discriminate. Qed.

(* ----------------------------------------------------------------- *)
(** ** C6 and C7: key order and determinism *)

Lemma stored_order_admissible : admissible stored_order.
Proof. intros m. apply Permutation_refl. Qed.

Lemma reverse_order_admissible : admissible reverse_order.
Proof. intros m. apply Permutation_sym, Permutation_rev. Qed.

(** C6 (fails on the code).  The Go port visits the keys of a mapping in map
    iteration order: the mapping built from [b], [a], [c] is printed in that
    order under one admissible order and backwards under another. *)
Theorem go_key_order_follows_map_iteration (fuel : nat) :
  let data := VObject [("b", VNumber (number_of_nat 1));
                       ("a", VNumber (number_of_nat 2));
                       ("c", VNumber (number_of_nat 3))] in
  admissible stored_order /\ admissible reverse_order
  /\ GoTotoon.ToToon stored_order (S (S fuel)) data
     = Ret ("b: 1" ++ NL ++ "a: 2" ++ NL ++ "c: 3")
  /\ GoTotoon.ToToon reverse_order (S (S fuel)) data
     = Ret ("c: 3" ++ NL ++ "a: 2" ++ NL ++ "b: 1").
Proof.
  repeat split;
    first [apply stored_order_admissible | apply reverse_order_admissible].
Qed.

(** C7 (fails on the code).  On the rows of the Go test
    [TestToToon_ListOfObjects], two runs of [ToToon] that meet different map
    iteration orders return different strings; the second one lacks the
    header [name | age] the test looks for. *)
Theorem go_encoding_depends_on_map_iteration (fuel : nat) :
  let data := VArray [VObject [("name", VString "Alice");
                               ("age", VNumber (number_of_nat 30))];
                      VObject [("name", VString "Bob");
                               ("age", VNumber (number_of_nat 25))]] in
  exists (order1 order2 : map_order) (s1 s2 : string),
    admissible order1 /\ admissible order2
    /\ GoTotoon.ToToon order1 (S (S (S fuel))) data = Ret s1
    /\ GoTotoon.ToToon order2 (S (S (S fuel))) data = Ret s2
    /\ s1 = "name | age" ++ NL ++ "--- | ---" ++ NL ++ "Alice | 30" ++ NL ++ "Bob | 25"
    /\ s2 = "age | name" ++ NL ++ "--- | ---" ++ NL ++ "30 | Alice" ++ NL ++ "25 | Bob"
    /\ s1 <> s2.
Proof.
  exists stored_order, reverse_order. eexists. eexists.
  split; [apply stored_order_admissible|].
  split; [apply reverse_order_admissible|].
  split; [reflexivity|]. split; [reflexivity|].
  split; [reflexivity|]. split; [reflexivity | discriminate].
Qed.

(* ----------------------------------------------------------------- *)
(** ** C3: the columns of a table *)

Lemma has_key_spec {A : Type} (k : string) (o : list (string * A)) :
  has_key k o = existsb (String.eqb k) (map fst o).
Proof.
  induction o as [|[k' v] o IH]; simpl; [reflexivity|].
  now rewrite IH, String.eqb_sym.
Qed.

Lemma overwrite_keys {A : Type} (k : string) (v : A) (o : list (string * A)) :
  map fst (overwrite k v o) = map fst o.
Proof.
  induction o as [|[k' v'] o IH]; simpl; [reflexivity|].
  destruct (String.eqb k' k); simpl; [reflexivity | now rewrite IH].
Qed.

Lemma insert_new_key_plain {A : Type} (k : string) (v : A) (o : list (string * A)) :
  array_index k = None -> insert_new_key k v o = (o ++ [(k, v)])%list.
Proof. intros H. destruct o; simpl; now rewrite H. Qed.

(** Away from array indices, assignment to the key dictionary is
    append-if-new, the key [__proto__] apart. *)
Lemma js_set_plain (dict : list (string * bool)) (k : string) :
  array_index k = None ->
  map fst (js_set dict k true)
  = if creates_property k then append_new (map fst dict) k else map fst dict.
Proof.
  intros H. unfold js_set, append_new, creates_property. rewrite has_key_spec.
  destruct (existsb _ _).
  - rewrite overwrite_keys. now destruct (negb _).
  - destruct (String.eqb k "__proto__"); simpl; [reflexivity|].
    rewrite insert_new_key_plain by assumption.
    rewrite map_app. reflexivity.
Qed.

Lemma set_all_plain (keys : list string) (dict : list (string * bool)) :
  Forall (fun k => array_index k = None) keys ->
  map fst (set_all dict keys)
  = fold_left append_new (filter creates_property keys) (map fst dict).
Proof.
  unfold set_all. revert dict.
  induction keys as [|k keys IH]; intros dict H; simpl; [reflexivity|].
  inversion H as [|? ? Hk Hks]; subst.
  rewrite IH by assumption. rewrite js_set_plain by assumption.
  now destruct (creates_property k).
Qed.

(** X8.  For rows that are objects whose keys are not array indices, the
    columns are the keys of all rows in first-seen order, the key
    [__proto__] left out: the dictionary never gets a property of that
    name. *)
Lemma columns_first_seen (data : list ToonValue) (dict : list (string * bool)) :
  Forall plain_keyed_object data ->
  exists allKeysDict,
    collect_keys false data dict = Ret allKeysDict
    /\ map fst allKeysDict
       = fold_left append_new (filter creates_property (keys_of_rows data))
           (map fst dict).
Proof.
  revert dict. induction data as [|obj data IH]; intros dict H; simpl.
  - eauto.
  - inversion H as [|? ? Hobj Hdata]; subst.
    destruct obj as [| | | | |props]; try contradiction.
    simpl in Hobj |- *.
    destruct (IH (set_all dict (map fst props)) Hdata) as (d & Hd & Hkeys).
    exists d. split; [exact Hd|].
    rewrite Hkeys, set_all_plain by assumption.
    unfold keys_of_rows. simpl. rewrite filter_app. now rewrite fold_left_app.
Qed.

(** On the example of the specification the columns are name, age, city,
    and the two absent cells are empty. *)
Example columns_of_the_example (fuel : nat) :
  Core.toToon (S (S (S fuel)))
    (VArray [VObject [("name", VString "Alice"); ("age", VNumber (number_of_nat 30))];
             VObject [("name", VString "Bob"); ("city", VString "NYC")]]) 2
  = Ret ("[2]{name,age,city}:" ++ NL ++ "  Alice,30," ++ NL ++ "  Bob,,NYC").
Proof. reflexivity. Qed.

(** C3 (fails on the code).  The keys are collected through a JavaScript
    object, which lists array-index keys first: with rows [{b: x}] and
    [{1: y}] the first key seen is [b], yet the column of [1] comes first. *)
Theorem columns_put_array_indices_first (fuel : nat) :
  let data := [VObject [("b", VString "x")]; VObject [("1", VString "y")]] in
  keys_of_rows data = ["b"; "1"]
  /\ Core.toToon (S (S (S fuel))) (VArray data) 2
     = Ret ("[2]{1,b}:" ++ NL ++ "  ,x" ++ NL ++ "  y,").
Proof. split; reflexivity. Qed.

(* ----------------------------------------------------------------- *)
(** ** core.ts: a mapping is printed in its own key order *)

Lemma Forall2_weaken {A B : Type} (P Q : A -> B -> Prop) (l : list A) (l' : list B) :
  (forall x y, P x y -> Q x y) -> Forall2 P l l' -> Forall2 Q l l'.
Proof. intros H F. induction F; constructor; auto. Qed.

Lemma listOfObjectsToToon_label (fuel : nat) (key : string)
    (props : list (string * ToonValue)) (rest : list ToonValue)
    (indent level : nat) (t : string) :
  Core.listOfObjectsToToon fuel key (VObject props :: rest) indent level = Ret t ->
  match collect_keys false (VObject props :: rest) [] with
  | Ret [] => t = "[]"
  | Ret (_ :: _) =>
      exists more, t = repeat_space (indent * level) ++ key ++ "[" ++ more
  | _ => False
  end.
Proof.
  destruct fuel as [|fuel]; [discriminate|]. simpl.
  destruct (collect_keys false rest (set_all [] (map fst props)))
    as [[|[k b] dict]| |]; simpl; try discriminate.
  - now intros [= <-].
  - intros H. apply bind_ret in H as (body & _ & H). injection H as <-.
    rewrite join_cons.
    destruct (String.eqb key "") eqn:E.
    + apply String.eqb_eq in E. subst key.
      destruct body; eexists; simpl; rewrite ?append_assoc; reflexivity.
    + destruct body; eexists; rewrite ?append_assoc; reflexivity.
Qed.

(** X3.  The lines [dictToToon] returns are one group per entry, in the order
    of the entries; the group of an entry is what the encoder of its value
    returns, under the line of its key, and so it opens with the indent and
    the key of its entry, followed by a colon or by the bracket of a table
    header; the one exception is an entry holding an array of objects whose
    rows have no column, whose group is the bare literal [[]]. *)
Lemma dictToToon_keeps_key_order (fuel : nat) (data : ToonObject)
    (indent level : nat) (s : string) :
  data <> [] ->
  Core.dictToToon (S fuel) data indent level = Ret s ->
  exists groups,
    s = join NL (List.concat groups)
    /\ Forall2 (fun entry group =>
                  entry_lines fuel indent level entry group
                  /\ opens_with_key (repeat_space (indent * level)) entry group)
         data groups.
Proof.
  intros Hne H. simpl in H.
  destruct data as [|entry data']; [congruence|].
  apply bind_ret in H as (lines & Hlines & H). injection H as <-.
  exists lines. split; [reflexivity|].
  apply forM_ret in Hlines. revert Hlines. apply Forall2_weaken.
  intros [key value] g Hg. unfold opens_with_key, entry_lines. cbn [fst snd].
  assert (Simple :
    bind (Core.valueToToon fuel value indent (level + 1))
      (fun valueStr =>
         Ret [repeat_space (indent * level) ++ key ++ String ":" (String " " valueStr)])
    = Ret g ->
    (exists valueStr,
       Core.valueToToon fuel value indent (level + 1) = Ret valueStr
       /\ g = [repeat_space (indent * level) ++ key ++ ": " ++ valueStr])
    /\ exists more lines',
         g = (repeat_space (indent * level) ++ key ++ ":" ++ more) :: lines').
  { intros E. apply bind_ret in E as (valueStr & Hv & E). injection E as <-.
    split; [eauto|]. exists (" " ++ valueStr), []. reflexivity. }
  assert (Nested : forall inner,
    g = [repeat_space (indent * level) ++ key ++ ":"; inner] ->
    exists more lines',
      g = (repeat_space (indent * level) ++ key ++ ":" ++ more) :: lines').
  { intros inner ->. exists "", [inner]. reflexivity. }
  destruct value as [| | | |[|first items]|[|p props]]; try exact (Simple Hg).
  - destruct first as [| | | | |props];
      simpl is_plain_object in Hg; cbv iota in Hg;
      apply bind_ret in Hg as (t & Ht & Hg); injection Hg as <-;
      try (split; [eauto | eapply Nested; reflexivity]).
    split; [eauto|].
    apply listOfObjectsToToon_label in Ht.
    destruct (collect_keys false (VObject props :: items) [])
      as [[|kb dict]| |]; try contradiction.
    + now subst t.
    + destruct Ht as (more & ->). eauto.
  - apply bind_ret in Hg as (d & Hd & Hg). injection Hg as <-.
    split; [eauto | eapply Nested; reflexivity].
Qed.

(** The exception is met: the key [a] does not reach the output. *)
Example key_of_keyless_rows_is_dropped (fuel : nat) :
  Core.toToon (S (S (S fuel)))
    (VObject [("a", VArray [VObject []]); ("b", VNumber (number_of_nat 1))]) 2
  = Ret ("[]" ++ NL ++ "b: 1").
Proof. reflexivity. Qed.

(* ================================================================= *)
(** * Further properties of the code *)

(* ----------------------------------------------------------------- *)
(** ** Assignment to and lookup in a JavaScript object *)

Lemma keys_insert_new_key {A : Type} (k : string) (v : A) (o : list (string * A)) :
  Permutation (map fst (insert_new_key k v o)) (k :: map fst o).
Proof.
  induction o as [|[k' v'] o IH]; simpl.
  - destruct (array_index k); apply Permutation_refl.
  - destruct (array_index k) as [i|].
    + destruct (array_index k') as [j|]; [|apply Permutation_refl].
      destruct (j <? i)%N; [|apply Permutation_refl].
      simpl. eapply Permutation_trans; [apply perm_skip, IH | apply perm_swap].
    + simpl. rewrite map_app. simpl.
      change (k' :: map fst o ++ [k])%list with ((k' :: map fst o) ++ [k])%list.
      apply Permutation_sym, Permutation_cons_append.
Qed.

Lemma in_keys_js_set {A : Type} (o : list (string * A)) (k : string) (v : A)
    (x : string) :
  In x (map fst (js_set o k v))
  <-> (x = k /\ creates_property k = true) \/ In x (map fst o).
Proof.
  unfold js_set, creates_property. destruct (has_key k o) eqn:E.
  - rewrite overwrite_keys. rewrite has_key_spec in E.
    apply existsb_exists in E as (y & Hy & Ey). apply String.eqb_eq in Ey. subst y.
    split; [auto | intros [[-> _] | H]; assumption].
  - destruct (String.eqb k "__proto__"); simpl.
    + split; [auto | intros [[_ H] | H]; [discriminate | exact H]].
    + split.
      * intros H. apply (Permutation_in _ (keys_insert_new_key k v o)) in H.
        destruct H as [<- | H]; auto.
      * intros H.
        apply (Permutation_in _ (Permutation_sym (keys_insert_new_key k v o))).
        destruct H as [[-> _] | H]; [left; reflexivity | right; assumption].
Qed.

Lemma has_key_false {A : Type} (k : string) (o : list (string * A)) :
  has_key k o = false -> ~ In k (map fst o).
Proof.
  rewrite has_key_spec. intros E H.
  assert (T : existsb (String.eqb k) (map fst o) = true).
  { apply existsb_exists. exists k. split; [exact H | apply String.eqb_refl]. }
  congruence.
Qed.

Lemma nodup_js_set {A : Type} (o : list (string * A)) (k : string) (v : A) :
  NoDup (map fst o) -> NoDup (map fst (js_set o k v)).
Proof.
  intros H. unfold js_set. destruct (has_key k o) eqn:E.
  - now rewrite overwrite_keys.
  - destruct (String.eqb k "__proto__"); [exact H|].
    apply (Permutation_NoDup (Permutation_sym (keys_insert_new_key k v o))).
    constructor; [apply has_key_false, E | exact H].
Qed.

Lemma key_before_plain (a k : string) : array_index k = None -> key_before a k.
Proof. unfold key_before. intros ->. now destruct (array_index a). Qed.

Lemma sorted_snoc_plain (keys : list string) (k : string) :
  array_index k = None ->
  StronglySorted key_before keys -> StronglySorted key_before (keys ++ [k]).
Proof.
  intros Hk H. induction H as [|a l Hl IH Ha]; simpl.
  - constructor; [constructor | constructor].
  - constructor; [exact IH|].
    apply Forall_app. split; [exact Ha|].
    constructor; [now apply key_before_plain | constructor].
Qed.

Lemma sorted_insert_new_key {A : Type} (k : string) (v : A) (o : list (string * A)) :
  StronglySorted key_before (map fst o) ->
  StronglySorted key_before (map fst (insert_new_key k v o)).
Proof.
  intros H. destruct (array_index k) as [i|] eqn:Ek.
  - induction o as [|[k' v'] o IH]; simpl; rewrite Ek.
    + constructor; [constructor | constructor].
    + simpl in H. inversion H as [|? ? Hs Hall]; subst.
      assert (Front : forall y, key_before k k' -> In y (map fst o) -> key_before k y).
      { intros y Hkk Hy. rewrite Forall_forall in Hall. specialize (Hall y Hy).
        unfold key_before in *. rewrite Ek in *.
        destruct (array_index k') as [j|], (array_index y) as [m|];
          try tauto; lia. }
      destruct (array_index k') as [j|] eqn:Ek'.
      * destruct (j <? i)%N eqn:Lt.
        -- simpl. constructor; [apply IH, Hs|].
           apply Forall_forall. intros y Hy.
           apply (Permutation_in _ (keys_insert_new_key k v o)) in Hy.
           destruct Hy as [<- | Hy].
           ++ unfold key_before. rewrite Ek', Ek. apply N.ltb_lt in Lt. lia.
           ++ rewrite Forall_forall in Hall. now apply Hall.
        -- simpl. constructor; [exact H|].
           assert (Hkk : key_before k k').
           { unfold key_before. rewrite Ek, Ek'. apply N.ltb_ge in Lt. exact Lt. }
           constructor; [exact Hkk|].
           apply Forall_forall. intros y Hy. now apply Front.
      * simpl. constructor; [exact H|].
        assert (Hkk : key_before k k').
        { unfold key_before. now rewrite Ek, Ek'. }
        constructor; [exact Hkk|].
        apply Forall_forall. intros y Hy. now apply Front.
  - rewrite insert_new_key_plain by assumption. rewrite map_app. simpl.
    now apply sorted_snoc_plain.
Qed.

Lemma js_ordered_js_set {A : Type} (o : list (string * A)) (k : string) (v : A) :
  js_ordered (map fst o) -> js_ordered (map fst (js_set o k v)).
Proof.
  intros [Hs Hn]. split; [|now apply nodup_js_set].
  unfold js_set. destruct (has_key k o).
  - now rewrite overwrite_keys.
  - destruct (String.eqb k "__proto__"); [exact Hs|].
    now apply sorted_insert_new_key.
Qed.

Lemma lookup_overwrite {A : Type} (k : string) (v : A) (o : list (string * A))
    (x : string) :
  has_key k o = true ->
  lookup x (overwrite k v o) = if String.eqb k x then Some v else lookup x o.
Proof.
  induction o as [|[k' v'] o IH]; simpl; [discriminate|].
  destruct (String.eqb k' k) eqn:E.
  - intros _. apply String.eqb_eq in E. subst k'. simpl.
    now destruct (String.eqb k x).
  - simpl. intros H. rewrite (IH H).
    destruct (String.eqb k' x) eqn:E'; [|reflexivity].
    apply String.eqb_eq in E'. subst k'. rewrite String.eqb_sym, E. reflexivity.
Qed.

Lemma lookup_app {A : Type} (x : string) (o o' : list (string * A)) :
  lookup x (o ++ o') =
  match lookup x o with
  | Some v => Some v
  | None => lookup x o'
  end.
Proof.
  induction o as [|[k v] o IH]; simpl; [reflexivity|].
  destruct (String.eqb k x); [reflexivity | exact IH].
Qed.

Lemma lookup_absent {A : Type} (x : string) (o : list (string * A)) :
  has_key x o = false -> lookup x o = None.
Proof.
  induction o as [|[k v] o IH]; simpl; [reflexivity|].
  destruct (String.eqb k x); [discriminate | exact IH].
Qed.

Lemma lookup_insert_new_key {A : Type} (k : string) (v : A) (o : list (string * A))
    (x : string) :
  has_key k o = false ->
  lookup x (insert_new_key k v o) = if String.eqb k x then Some v else lookup x o.
Proof.
  intros Hk. destruct (array_index k) as [i|] eqn:Ek.
  - induction o as [|[k' v'] o IH]; simpl; rewrite Ek.
    + simpl. now destruct (String.eqb k x).
    + simpl in Hk. apply orb_false_iff in Hk as [Hk' Hk].
      assert (Front :
        lookup x ((k, v) :: (k', v') :: o)
        = if String.eqb k x then Some v else lookup x ((k', v') :: o))
        by reflexivity.
      destruct (array_index k') as [j|]; [|exact Front].
      destruct (j <? i)%N; [|exact Front].
      simpl. rewrite (IH Hk).
      destruct (String.eqb k' x) eqn:E'; [|reflexivity].
      apply String.eqb_eq in E'. subst k'. now rewrite String.eqb_sym, Hk'.
  - rewrite insert_new_key_plain by assumption. rewrite lookup_app. simpl.
    destruct (String.eqb k x) eqn:E.
    + apply String.eqb_eq in E. subst x. now rewrite (lookup_absent _ _ Hk).
    + now destruct (lookup x o).
Qed.

(** Reading back what was assigned: the value, unless the key is a
    [__proto__] the object does not hold. *)
Lemma lookup_js_set {A : Type} (o : list (string * A)) (k : string) (v : A)
    (x : string) :
  creates_property k = true \/ has_key k o = true ->
  lookup x (js_set o k v) = if String.eqb k x then Some v else lookup x o.
Proof.
  unfold js_set, creates_property. destruct (has_key k o) eqn:E.
  - intros _. now apply lookup_overwrite.
  - intros [H | H]; [|discriminate].
    destruct (String.eqb k "__proto__"); [discriminate|].
    now apply lookup_insert_new_key.
Qed.

Lemma js_set_proto {A : Type} (o : list (string * A)) (v : A) :
  has_key "__proto__" o = false -> js_set o "__proto__" v = o.
Proof. unfold js_set. now intros ->. Qed.

(* ----------------------------------------------------------------- *)
(** ** core.ts: the columns and the shape of a table *)

Lemma creates_property_spec (k : string) :
  creates_property k = true <-> k <> "__proto__".
Proof.
  unfold creates_property. rewrite Bool.negb_true_iff.
  split.
  - intros E ->. discriminate.
  - intros H. destruct (String.eqb k "__proto__") eqn:E; [|reflexivity].
    apply String.eqb_eq in E. contradiction.
Qed.

Lemma in_keys_set_all (keys : list string) (dict : list (string * bool))
    (x : string) :
  In x (map fst (set_all dict keys))
  <-> In x (map fst dict) \/ (In x keys /\ creates_property x = true).
Proof.
  unfold set_all. revert dict.
  induction keys as [|k keys IH]; intros dict; simpl; [tauto|].
  rewrite IH, in_keys_js_set. intuition (subst; auto).
Qed.

Lemma js_ordered_set_all (keys : list string) (dict : list (string * bool)) :
  js_ordered (map fst dict) -> js_ordered (map fst (set_all dict keys)).
Proof.
  unfold set_all. revert dict.
  induction keys as [|k keys IH]; intros dict H; simpl; [exact H|].
  apply IH, js_ordered_js_set, H.
Qed.

Lemma collect_keys_union (data : list ToonValue) (dict allKeysDict : list (string * bool)) :
  collect_keys false data dict = Ret allKeysDict ->
  js_ordered (map fst dict) ->
  js_ordered (map fst allKeysDict)
  /\ forall k, In k (map fst allKeysDict) <->
               In k (map fst dict)
               \/ (creates_property k = true
                   /\ exists row keys,
                        In row data /\ Object_keys row = Ret keys /\ In k keys).
Proof.
  revert dict. induction data as [|obj data IH]; intros dict H Hord; simpl in H.
  - injection H as <-. split; [exact Hord|].
    intros k. split; [auto | intros [H | (_ & row & keys & [] & _)]; exact H].
  - apply bind_ret in H as (keys & Hkeys & H).
    destruct (IH _ H (js_ordered_set_all keys dict Hord)) as [Hord' Hin].
    split; [exact Hord'|]. intros k. rewrite Hin, in_keys_set_all. split.
    + intros [[Hk | [Hk Hc]] | (Hc & row & keys' & Hrow & Hk & Hk')]; auto.
      * right. split; [exact Hc|]. exists obj, keys. simpl. auto.
      * right. split; [exact Hc|]. exists row, keys'. simpl. auto.
    + intros [Hk | (Hc & row & keys' & [<- | Hrow] & Hk & Hk')]; auto.
      * left. right. split; [congruence | exact Hc].
      * right. split; [exact Hc|]. eauto.
Qed.

(** X7.  The columns of a table are the keys of its rows other than
    [__proto__], each once, array indices first and ascending. *)
Theorem columns_are_the_union (data : list ToonValue)
    (allKeysDict : list (string * bool)) :
  collect_keys false data [] = Ret allKeysDict ->
  js_ordered (map fst allKeysDict)
  /\ forall k, In k (map fst allKeysDict) <->
               k <> "__proto__"
               /\ exists row keys,
                    In row data /\ Object_keys row = Ret keys /\ In k keys.
Proof.
  intros H. apply collect_keys_union in H as [Hord Hin].
  - split; [exact Hord|]. intros k.
    rewrite Hin, creates_property_spec. simpl. tauto.
  - split; constructor.
Qed.

Lemma columns_are_the_union_witness :
  js_ordered ["1"; "b"; "a"]
  /\ (In "__proto__" ["1"; "b"; "a"] <->
      "__proto__" <> "__proto__"
      /\ exists row keys,
           In row [VObject [("b", VNull); ("__proto__", VNull)];
                   VObject [("1", VNull); ("a", VNull)]]
           /\ Object_keys row = Ret keys /\ In "__proto__" keys).
Proof.
  destruct (columns_are_the_union
              [VObject [("b", VNull); ("__proto__", VNull)];
               VObject [("1", VNull); ("a", VNull)]]
              [("1", true); ("b", true); ("a", true)] eq_refl) as [Hord Hin].
  split; [exact Hord | exact (Hin "__proto__")].
Defined.

(** A null among the rows makes the key-collecting loop raise. *)
Lemma collect_keys_null (data : list ToonValue) (dict : list (string * bool)) :
  In VNull data -> collect_keys false data dict = Throw TypeError_null.
Proof.
  revert dict. induction data as [|obj data IH]; intros dict; simpl; [tauto|].
  intros [-> | H]; [reflexivity|].
  destruct obj; simpl; try reflexivity; apply IH, H.
Qed.

(** X2.  A table with a null row is not rendered: [Object.keys(null)] raises a
    TypeError out of [listOfObjectsToToon], whatever the other rows hold. *)
Theorem null_row_raises (fuel : nat) (key : string)
    (first : list (string * ToonValue)) (data : list ToonValue)
    (indent level : nat) :
  In VNull data ->
  Core.listOfObjectsToToon (S fuel) key (VObject first :: data) indent level
  = Throw TypeError_null.
Proof.
  intros H. simpl.
  rewrite (collect_keys_null data (set_all [] (map fst first)) H).
  reflexivity.
Qed.

Lemma null_row_raises_witness :
  Core.listOfObjectsToToon 1 "users" [VObject [("a", VBool true)]; VNull] 2 0
  = Throw TypeError_null.
Proof.
  apply (null_row_raises 0 "users" [("a", VBool true)] [VNull] 2 0).
  left. reflexivity.
Defined.

Lemma collect_keys_none (data : list ToonValue) (dict : list (string * bool)) :
  Forall (fun row => Object_keys row = Ret []) data ->
  collect_keys false data dict = Ret dict.
Proof.
  induction 1 as [|row data Hrow _ IH]; simpl; [reflexivity|].
  rewrite Hrow. simpl. exact IH.
Qed.

(** X9.  Rows without any key give the literal [[]]: the label, the count and
    the rows are all dropped. *)
Theorem keyless_rows_give_empty_literal (fuel : nat) (key : string)
    (data : list ToonValue) (indent level : nat) :
  Forall (fun row => Object_keys row = Ret []) data ->
  Core.listOfObjectsToToon (S fuel) key (VObject [] :: data) indent level
  = Ret "[]".
Proof.
  intros H. simpl. change (set_all [] []) with (@nil (string * bool)).
  now rewrite (collect_keys_none data [] H).
Qed.

Lemma keyless_rows_give_empty_literal_witness :
  Core.listOfObjectsToToon 1 "users" [VObject []; VObject []; VBool true] 2 3
  = Ret "[]".
Proof.
  apply (keyless_rows_give_empty_literal 0 "users" [VObject []; VBool true] 2 3).
  repeat constructor.
Defined.

Lemma Forall2_length_eq {A B : Type} (P : A -> B -> Prop) (l : list A) (l' : list B) :
  Forall2 P l l' -> List.length l' = List.length l.
Proof. induction 1; simpl; congruence. Qed.

Lemma forM_length {A B : Type} (body : A -> outcome B) (l : list A) (ys : list B) :
  forM l body = Ret ys -> List.length ys = List.length l.
Proof. intros H. apply forM_ret in H. now apply Forall2_length_eq in H. Qed.

Lemma Forall2_choose {A B C : Type} (P : A -> C -> Prop) (f : C -> B)
    (l : list A) (ys : list B) :
  Forall2 (fun x y => exists c, P x c /\ y = f c) l ys ->
  exists cs, Forall2 P l cs /\ ys = map f cs.
Proof.
  induction 1 as [|x y l ys (c & Hc & ->) _ (cs & Hcs & ->)].
  - exists []. split; [constructor | reflexivity].
  - exists (c :: cs). split; [constructor; assumption | reflexivity].
Qed.

Lemma forM_rows {A : Type} (body : A -> string -> outcome string)
    (line : list string -> string) (rows : list A) (allKeys : list string)
    (lines : list string) :
  forM rows (fun obj => cells <- forM allKeys (body obj) ;; Ret (line cells))
  = Ret lines ->
  exists rowCells,
    Forall2 (fun obj cells =>
               Forall2 (fun k c => body obj k = Ret c) allKeys cells)
            rows rowCells
    /\ lines = map line rowCells.
Proof.
  intros H. apply forM_ret in H.
  apply (Forall2_choose
           (fun obj cells =>
              Forall2 (fun k c => body obj k = Ret c) allKeys cells) line).
  revert H. apply Forall2_weaken. intros obj l Hl.
  apply bind_ret in Hl as (cells & Hcells & Hl). injection Hl as <-.
  exists cells. split; [exact (forM_ret _ _ _ Hcells) | reflexivity].
Qed.

(** X5.  The text of a table follows from its columns and its cells: with no
    column it is the literal [[]]; otherwise it is the header, which
    announces as many rows as the array has elements and lists the columns,
    then one row per element, in order, each made of two spaces and the
    cells of that element, one per column, joined by commas. *)
Theorem table_shape (fuel : nat) (key : string)
    (first : list (string * ToonValue)) (data : list ToonValue)
    (indent level : nat) (s : string) :
  Core.listOfObjectsToToon (S fuel) key (VObject first :: data) indent level
  = Ret s ->
  exists allKeysDict,
    collect_keys false (VObject first :: data) [] = Ret allKeysDict
    /\ (map fst allKeysDict = [] /\ s = "[]"
        \/ map fst allKeysDict <> []
           /\ exists rowCells,
                table_cells (Core.cell (fun v => Core.valueToToon fuel v 0 0))
                  (VObject first :: data) (map fst allKeysDict) rowCells
                /\ s = join NL
                         ((repeat_space (indent * level) ++ key ++ "["
                             ++ string_of_nat (S (List.length data)) ++ "]{"
                             ++ join "," (map fst allKeysDict) ++ "}:")
                          :: map (fun cells => "  " ++ join "," cells) rowCells)).
Proof.
  simpl. intros H.
  apply bind_ret in H as (dict & Hdict & H). exists dict.
  split; [exact Hdict|].
  destruct (map fst dict) as [|k ks] eqn:Ekeys; [injection H as <-; now left|].
  apply bind_ret in H as (body & Hbody & H). injection H as <-. right.
  split; [discriminate|].
  unfold Core.rows in Hbody.
  apply (forM_rows (Core.cell (fun v => Core.valueToToon fuel v 0 0))
           (fun cells => "  " ++ join "," cells)) in Hbody
    as (rowCells & Hcells & ->).
  exists rowCells. split; [exact Hcells|].
  f_equal. f_equal.
  destruct (String.eqb key "") eqn:E; [|reflexivity].
  apply String.eqb_eq in E. now subst key.
Qed.

Lemma table_shape_witness :
  exists allKeysDict,
    collect_keys false
      [VObject [("name", VString "Alice")]; VObject [("name", VString "Bob")]] []
    = Ret allKeysDict
    /\ (map fst allKeysDict = []
        /\ "users[2]{name}:" ++ NL ++ "  Alice" ++ NL ++ "  Bob" = "[]"
        \/ map fst allKeysDict <> []
           /\ exists rowCells,
                table_cells (Core.cell (fun v => Core.valueToToon 1 v 0 0))
                  [VObject [("name", VString "Alice")];
                   VObject [("name", VString "Bob")]]
                  (map fst allKeysDict) rowCells
                /\ "users[2]{name}:" ++ NL ++ "  Alice" ++ NL ++ "  Bob"
                   = join NL
                       ((repeat_space (2 * 0) ++ "users" ++ "["
                           ++ string_of_nat 2 ++ "]{"
                           ++ join "," (map fst allKeysDict) ++ "}:")
                        :: map (fun cells => "  " ++ join "," cells) rowCells)).
Proof.
  apply (table_shape 1 "users" [("name", VString "Alice")]
           [VObject [("name", VString "Bob")]] 2 0).
  reflexivity.
Defined.

(** X6.  The rows of a table do not move with the indentation: the indent width
    and the level only shift the header line. *)
Theorem table_rows_ignore_indent (fuel : nat) (key : string)
    (first : list (string * ToonValue)) (data : list ToonValue)
    (indent level : nat) (s : string) :
  Core.listOfObjectsToToon (S fuel) key (VObject first :: data) indent level
  = Ret s ->
  s = "[]"
  \/ exists rest,
       forall indent' level',
         Core.listOfObjectsToToon (S fuel) key (VObject first :: data)
           indent' level'
         = Ret (repeat_space (indent' * level') ++ rest).
Proof.
  simpl. intros H.
  apply bind_ret in H as (dict & Hdict & H).
  destruct (map fst dict) as [|k ks] eqn:Ekeys; [injection H as <-; now left|].
  apply bind_ret in H as (body & Hbody & H). injection H as <-. right.
  exists (key ++ "[" ++ string_of_nat (S (List.length data)) ++ "]{"
            ++ join "," (k :: ks) ++ "}:"
            ++ match body with [] => "" | _ => NL ++ join NL body end).
  intros indent' level'. rewrite Hdict. simpl. rewrite Ekeys, Hbody. simpl.
  f_equal. rewrite join_cons.
  destruct (String.eqb key "") eqn:E.
  - apply String.eqb_eq in E. subst key.
    destruct body;
      repeat (progress (simpl; rewrite ?append_assoc, ?append_empty_r));
      reflexivity.
  - destruct body;
      repeat (progress (simpl; rewrite ?append_assoc, ?append_empty_r));
      reflexivity.
Qed.

Lemma table_rows_ignore_indent_witness :
  "    tags[1]{a}:" ++ NL ++ "  x" = "[]"
  \/ exists rest,
       forall indent' level',
         Core.listOfObjectsToToon 2 "tags" [VObject [("a", VString "x")]]
           indent' level'
         = Ret (repeat_space (indent' * level') ++ rest).
Proof.
  apply (table_rows_ignore_indent 1 "tags" [("a", VString "x")] [] 2 2).
  reflexivity.
Defined.

(* ----------------------------------------------------------------- *)
(** ** core.ts: itemized sequences *)

(** X4.  A sequence whose first element is not an object is printed as one
    bullet per element, in order, each opening with the indent and a dash;
    an element that is itself an array or object continues after a line
    break on the bullet's line. *)
Theorem listToToon_bullets (fuel : nat) (first : ToonValue)
    (data : list ToonValue) (indent level : nat) (s : string) :
  is_plain_object first = false ->
  Core.listToToon fuel (first :: data) indent level = Ret s ->
  exists items,
    s = join NL (map (fun item => repeat_space (indent * level) ++ "- " ++ item)
                   items)
    /\ Forall2 (fun value item =>
                  Core.valueToToon (pred fuel) value indent level = Ret item)
               (first :: data) items.
Proof.
  intros Hfirst H. destruct fuel as [|fuel]; [discriminate|].
  cbn -[forM join] in H. rewrite Hfirst in H.
  apply bind_ret in H as (lines & Hlines & H). injection H as <-.
  apply forM_ret in Hlines.
  assert (Hitems :
    Forall2 (fun value line =>
               exists item,
                 Core.valueToToon fuel value indent level = Ret item
                 /\ line = repeat_space (indent * level) ++ "- " ++ item)
            (first :: data) lines).
  { revert Hlines. apply Forall2_weaken. intros value line Hline.
    apply bind_ret in Hline as (item & Hitem & Hline). injection Hline as <-.
    eauto. }
  apply (Forall2_choose
           (fun value item => Core.valueToToon fuel value indent level = Ret item)
           (fun item => repeat_space (indent * level) ++ "- " ++ item)) in Hitems
    as (items & Hitems & ->).
  exists items. split; [reflexivity | exact Hitems].
Qed.

Lemma listToToon_bullets_witness :
  exists items,
    "- 1" ++ NL ++ "- hello"
    = join NL (map (fun item => repeat_space (2 * 0) ++ "- " ++ item) items)
    /\ Forall2 (fun value item => Core.valueToToon 1 value 2 0 = Ret item)
         [VNumber (number_of_nat 1); VString "hello"] items.
Proof.
  apply (listToToon_bullets 2 (VNumber (number_of_nat 1)) [VString "hello"] 2 0).
  - reflexivity.
  - reflexivity.
Defined.

(* ----------------------------------------------------------------- *)
(** ** Escaping *)

Lemma replaceAll_append (c : ascii) (by_ a b : string) :
  replaceAll c by_ (a ++ b) = replaceAll c by_ a ++ replaceAll c by_ b.
Proof.
  induction a as [|x a IH]; simpl; [reflexivity|].
  now rewrite IH, append_assoc.
Qed.

(** Decides the comparisons of one character against the special ones. *)
Ltac split_char a :=
  repeat match goal with
         | |- context [Ascii.eqb a ?c] =>
             let E := fresh "E" in
             destruct (Ascii.eqb a c) eqn:E;
             [apply Ascii.eqb_eq in E; subst a; try reflexivity | simpl]
         end.

(** The five chained replacements of [valueToToon] in core.ts are the one
    pass of [escapeString] in the Go port part_002. *)
Lemma escape_chain_is_one_pass (s : string) :
  replaceAll char_tab (BS ++ "t")
    (replaceAll char_cr (BS ++ "r")
       (replaceAll char_newline (BS ++ "n")
          (replaceAll char_dquote (BS ++ DQ)
             (replaceAll char_backslash (BS ++ BS) s))))
  = go_escape_chars true s.
Proof.
  induction s as [|a s IH]; [reflexivity|].
  cbn [replaceAll go_escape_chars]. rewrite !replaceAll_append, IH.
  f_equal. simpl. split_char a. reflexivity.
Qed.

(** X16.  The two compact ports render every string leaf alike. *)
Theorem valueToToon_string_agrees_with_go (s : string) :
  Core.valueToToon_string s = GoPart002.escapeString s.
Proof.
  unfold Core.valueToToon_string, GoPart002.escapeString, quote.
  destruct (test_class _ s); [|reflexivity].
  now rewrite escape_chain_is_one_pass.
Qed.

Lemma short_chain_is_one_pass (s : string) :
  includes char_tab s = false ->
  replaceAll char_newline (BS ++ "n")
    (replaceAll char_dquote (BS ++ DQ)
       (replaceAll char_backslash (BS ++ BS) s))
  = go_escape_chars false s.
Proof.
  induction s as [|a s IH]; [reflexivity|].
  cbn [includes]. intros H. apply orb_false_iff in H as [Ha Hs].
  cbn [replaceAll go_escape_chars]. rewrite !replaceAll_append, (IH Hs).
  f_equal. simpl.
  destruct (Ascii.eqb a char_tab) eqn:Etab; [discriminate|].
  split_char a. reflexivity.
Qed.

(** X18.  The two pipe ports render a string leaf alike unless it holds a tab:
    go/totoon.go writes a tab as backslash-t, part_000 leaves it raw. *)
Theorem pipe_ports_agree_without_tab (s : string) :
  includes char_tab s = false ->
  Part000.escape_string s = GoTotoon.escapeString s.
Proof.
  intros H. unfold Part000.escape_string, GoTotoon.escapeString, quote.
  destruct (test_class _ s); [|reflexivity].
  now rewrite short_chain_is_one_pass.
Qed.

Lemma pipe_ports_agree_without_tab_witness :
  Part000.escape_string "a:b|c" = GoTotoon.escapeString "a:b|c".
Proof.
  apply (pipe_ports_agree_without_tab "a:b|c"). reflexivity.
Defined.

Example pipe_ports_differ_on_tab :
  Part000.escape_string (String char_tab "") = DQ ++ String char_tab "" ++ DQ
  /\ GoTotoon.escapeString (String char_tab "") = DQ ++ BS ++ "t" ++ DQ.
Proof. split; reflexivity. Qed.

Lemma one_pass_no_raw_control (c : ascii) (s : string) :
  In c [char_newline; char_cr; char_tab] ->
  includes c (go_escape_chars true s) = false.
Proof.
  intros Hc. induction s as [|a s IH]; [reflexivity|].
  cbn [go_escape_chars]. rewrite includes_append, IH, orb_false_r.
  destruct Hc as [<- | [<- | [<- | []]]]; simpl; split_char a;
    first [reflexivity | congruence].
Qed.

(** X10.  What [valueToToon] returns for a string holds no raw line break,
    carriage return or tab: a string leaf stays on its line. *)
Theorem string_leaf_has_no_raw_control (s : string) (c : ascii) :
  In c [char_newline; char_cr; char_tab] ->
  includes c (Core.valueToToon_string s) = false.
Proof.
  intros Hc. unfold Core.valueToToon_string.
  destruct (test_class _ s) eqn:E.
  - rewrite escape_chain_is_one_pass. unfold quote.
    rewrite !includes_append, (one_pass_no_raw_control c s Hc).
    destruct Hc as [<- | [<- | [<- | []]]]; reflexivity.
  - apply (test_class_includes _ c) in E; [exact E|].
    simpl in *. tauto.
Qed.

Lemma string_leaf_has_no_raw_control_witness :
  includes char_tab
    (Core.valueToToon_string ("a" ++ String char_tab "b")) = false.
Proof.
  apply (string_leaf_has_no_raw_control ("a" ++ String char_tab "b") char_tab).
  right. right. left. reflexivity.
Defined.

Ltac split_char_in H a :=
  repeat match type of H with
         | context [Ascii.eqb a ?c] =>
             let E := fresh "E" in
             destruct (Ascii.eqb a c) eqn:E;
             [apply Ascii.eqb_eq in E; subst a |]; simpl in H
         end.

Lemma one_pass_injective (with_cr : bool) (s1 s2 : string) :
  go_escape_chars with_cr s1 = go_escape_chars with_cr s2 -> s1 = s2.
Proof.
  revert s2. induction s1 as [|a1 r1 IH]; intros [|a2 r2] H.
  - reflexivity.
  - exfalso. destruct with_cr; simpl in H; split_char_in H a2; discriminate.
  - exfalso. destruct with_cr; simpl in H; split_char_in H a1; discriminate.
  - destruct with_cr; simpl in H; split_char_in H a1; split_char_in H a2;
      try discriminate;
      try (injection H as H; f_equal; apply IH; exact H);
      try (injection H as H1 H2; f_equal; [congruence | apply IH; exact H2]);
      try (injection H as H1 H2; subst; simpl in *; discriminate).
Qed.

Lemma append_cancel_r (a b c : string) : a ++ c = b ++ c -> a = b.
Proof.
  revert b. induction a as [|x a IH]; intros [|y b] H.
  - reflexivity.
  - apply (f_equal String.length) in H. simpl in H.
    rewrite length_append in H. lia.
  - apply (f_equal String.length) in H. simpl in H.
    rewrite length_append in H. lia.
  - simpl in H. injection H as -> H. f_equal. now apply IH.
Qed.

Lemma quote_injective (a b : string) : quote a = quote b -> a = b.
Proof.
  unfold quote. simpl. intros H. injection H as H.
  now apply append_cancel_r in H.
Qed.

(** X11.  Among the strings that hold a control character, and among those that
    hold none, [valueToToon] loses nothing: two different strings never get
    the same text. *)
Theorem string_leaf_injective (s1 s2 : string) :
  test_class [char_newline; char_tab; char_cr] s1
  = test_class [char_newline; char_tab; char_cr] s2 ->
  Core.valueToToon_string s1 = Core.valueToToon_string s2 ->
  s1 = s2.
Proof.
  unfold Core.valueToToon_string. intros <-.
  destruct (test_class _ s1); [|auto].
  rewrite !escape_chain_is_one_pass. intros H.
  apply quote_injective, one_pass_injective in H. exact H.
Qed.

Lemma string_leaf_injective_witness :
  "a" ++ NL ++ "b" = "a" ++ NL ++ "b".
Proof.
  apply (string_leaf_injective ("a" ++ NL ++ "b") ("a" ++ NL ++ "b"));
    reflexivity.
Defined.

(** Across the two kinds the text is ambiguous: the string made of a double
    quote, [a], a backslash, [n] and a double quote is returned bare, and
    it is the text returned for [a] followed by a line break. *)
Example string_leaf_collision :
  Core.valueToToon_string (DQ ++ "a" ++ BS ++ "n" ++ DQ)
  = Core.valueToToon_string ("a" ++ NL)
  /\ DQ ++ "a" ++ BS ++ "n" ++ DQ <> "a" ++ NL.
Proof. split; [reflexivity | discriminate]. Qed.

(* ----------------------------------------------------------------- *)
(** ** core.ts: when the encoder raises *)

Lemma bind_no_throw {A B : Type} (m : outcome A) (k : A -> outcome B) :
  no_throw m -> (forall a, m = Ret a -> no_throw (k a)) -> no_throw (bind m k).
Proof.
  intros Hm Hk msg. destruct m as [a|msg'|]; simpl.
  - apply (Hk a eq_refl).
  - exfalso. exact (Hm msg' eq_refl).
  - discriminate.
Qed.

Lemma forM_no_throw {A B : Type} (body : A -> outcome B) (l : list A) :
  (forall x, In x l -> no_throw (body x)) -> no_throw (forM l body).
Proof.
  induction l as [|x l IH]; intros H; simpl; [discriminate|].
  apply bind_no_throw; [apply H; now left|]. intros y _.
  apply bind_no_throw; [apply IH; intros; apply H; now right|].
  discriminate.
Qed.

Lemma ret_no_throw {A : Type} (a : A) : no_throw (Ret a).
Proof. discriminate. Qed.

Lemma collect_keys_objects_no_throw (rows : list ToonValue)
    (dict : list (string * bool)) :
  no_throw (collect_keys true rows dict).
Proof.
  revert dict. induction rows as [|obj rows IH]; intros dict; simpl;
    [discriminate|].
  destruct obj; simpl; apply IH.
Qed.

Lemma collect_keys_no_throw (rows : list ToonValue) (dict : list (string * bool)) :
  existsb is_null rows = false -> no_throw (collect_keys false rows dict).
Proof.
  revert dict. induction rows as [|obj rows IH]; intros dict H; simpl;
    [discriminate|].
  simpl in H. apply orb_false_iff in H as [Hobj Hrows].
  destruct obj; simpl; try discriminate; apply IH, Hrows.
Qed.

Lemma no_null_row_item (items : list ToonValue) (x : ToonValue) :
  no_null_row (VArray items) = true -> In x items -> no_null_row x = true.
Proof.
  simpl. intros H Hin. apply andb_true_iff in H as [_ H].
  rewrite forallb_forall in H. now apply H.
Qed.

Lemma no_null_row_prop (props : list (string * ToonValue)) (k : string)
    (x : ToonValue) :
  no_null_row (VObject props) = true -> In (k, x) props -> no_null_row x = true.
Proof.
  simpl. intros H Hin. rewrite forallb_forall in H. exact (H _ Hin).
Qed.

Lemma no_null_row_own_property (obj : ToonValue) (k : string) (x : ToonValue) :
  no_null_row obj = true -> own_property obj k = Some x -> no_null_row x = true.
Proof.
  intros H E.
  destruct obj as [| | |s|items|props]; simpl in E; try discriminate.
  - destruct (String.eqb k "length"); [now injection E as <-|].
    destruct (array_index k); [|discriminate].
    destruct (String.get _ s); [now injection E as <- | discriminate].
  - destruct (String.eqb k "length"); [now injection E as <-|].
    destruct (array_index k); [|discriminate].
    apply nth_error_In in E. exact (no_null_row_item _ _ H E).
  - apply lookup_in in E as (k' & E). exact (no_null_row_prop _ _ _ H E).
Qed.

Lemma no_null_row_property (obj : ToonValue) (k : string) (v : ToonValue) :
  no_null_row obj = true ->
  nullish_to_empty (get_property obj k) = JsData v ->
  no_null_row v = true.
Proof.
  intros H E. apply nullish_data in E as [E | ->]; [|reflexivity].
  apply get_property_data in E as [E | (p & _ & ->)].
  - exact (no_null_row_own_property _ _ _ H E).
  - now destruct p.
Qed.

Section CoreCellsNoThrow.
Variable value00 : ToonValue -> outcome string.
Hypothesis value00_no_throw :
  forall v, no_null_row v = true -> no_throw (value00 v).

Lemma member00_no_throw (x : JsValue) :
  (forall v, x = JsData v -> no_null_row v = true) ->
  no_throw (Core.member00 value00 x).
Proof.
  destruct x as [v|name]; simpl; intros H.
  - apply value00_no_throw, H. reflexivity.
  - apply ret_no_throw.
Qed.

Lemma cell_no_throw (obj : ToonValue) (k : string) :
  no_null_row obj = true -> no_throw (Core.cell value00 obj k).
Proof.
  intros Hobj. unfold Core.cell.
  assert (Scalar : forall x,
    (forall v, x = JsData v -> no_null_row v = true) ->
    no_throw (bind (Core.member00 value00 x)
                (fun valueStr => Ret (Core.scalar_cell valueStr)))).
  { intros x Hs. apply bind_no_throw;
      [apply member00_no_throw, Hs | intros; apply ret_no_throw]. }
  destruct (nullish_to_empty (get_property obj k))
    as [[| | | |items|props]|name] eqn:E;
    try (apply Scalar; intros v [= <-]; reflexivity);
    try (apply Scalar; intros v; discriminate).
  - pose proof (no_null_row_property _ _ _ Hobj E) as Hv.
    assert (Plain : no_throw (Core.plain_array_cell value00 items)).
    { unfold Core.plain_array_cell.
      apply bind_no_throw; [|intros; apply ret_no_throw].
      apply forM_no_throw. intros x Hx.
      apply value00_no_throw, (no_null_row_item _ _ Hv Hx). }
    destruct items as [|[| | | | |first] rest]; try exact Plain.
    unfold Core.nested_table_cell.
    apply bind_no_throw; [apply collect_keys_objects_no_throw|]. intros dict _.
    apply bind_no_throw; [|intros; apply ret_no_throw].
    apply forM_no_throw. intros nestedObj Hin. apply filter_In in Hin as [Hin _].
    apply bind_no_throw; [|intros; apply ret_no_throw].
    apply forM_no_throw. intros nk _. unfold Core.nested_row_cell.
    apply bind_no_throw; [|intros; apply ret_no_throw].
    apply member00_no_throw. intros v Ev.
    exact (no_null_row_property _ _ _ (no_null_row_item _ _ Hv Hin) Ev).
  - pose proof (no_null_row_property _ _ _ Hobj E) as Hv.
    unfold Core.nested_object_cell.
    apply bind_no_throw; [|intros; apply ret_no_throw].
    apply forM_no_throw. intros [nk nv] Hin.
    apply bind_no_throw; [|intros; apply ret_no_throw].
    apply value00_no_throw, (no_null_row_prop _ _ _ Hv Hin).
Qed.

Lemma rows_no_throw (data : list ToonValue) (allKeys : list string) :
  no_null_row (VArray data) = true ->
  no_throw (Core.rows value00 data allKeys).
Proof.
  intros H. unfold Core.rows. apply forM_no_throw. intros obj Hin.
  apply bind_no_throw; [|intros; apply ret_no_throw].
  apply forM_no_throw. intros k _.
  apply cell_no_throw, (no_null_row_item _ _ H Hin).
Qed.
End CoreCellsNoThrow.

Lemma core_no_throw (fuel : nat) :
  (forall data indent level,
      no_null_row (VObject data) = true ->
      no_throw (Core.dictToToon fuel data indent level))
  /\ (forall data indent level,
        no_null_row (VArray data) = true ->
        no_throw (Core.listToToon fuel data indent level))
  /\ (forall key data indent level,
        no_null_row (VArray data) = true ->
        no_throw (Core.listOfObjectsToToon fuel key data indent level))
  /\ (forall value indent level,
        no_null_row value = true ->
        no_throw (Core.valueToToon fuel value indent level)).
Proof.
  induction fuel as [|fuel (IHd & IHl & IHt & IHv)].
  { split; [|split; [|split]]; intros; discriminate. }
  split; [|split; [|split]].
  - intros data indent level H. cbn -[forM join no_null_row].
    destruct data as [|entry data']; [apply ret_no_throw|].
    apply bind_no_throw; [|intros; apply ret_no_throw].
    apply forM_no_throw. intros [key value] Hin.
    pose proof (no_null_row_prop _ _ _ H Hin) as Hv.
    destruct value as [| | | |[|first items]|[|p props]];
      try (apply bind_no_throw; [apply IHv, Hv | intros; apply ret_no_throw]).
    + destruct (is_plain_object first);
        (apply bind_no_throw; [|intros; apply ret_no_throw]);
        [apply IHt, Hv | apply IHl, Hv].
    + apply bind_no_throw; [apply IHd, Hv | intros; apply ret_no_throw].
  - intros data indent level H. cbn -[forM join no_null_row].
    destruct data as [|first data']; [apply ret_no_throw|].
    destruct (is_plain_object first); [apply IHt, H|].
    apply bind_no_throw; [|intros; apply ret_no_throw].
    apply forM_no_throw. intros item Hin.
    apply bind_no_throw; [|intros; apply ret_no_throw].
    apply IHv, (no_null_row_item _ _ H Hin).
  - intros key data indent level H. cbn -[forM join no_null_row collect_keys].
    destruct data as [|[| | | | |props] data']; try apply IHl, H.
    apply bind_no_throw.
    + apply collect_keys_no_throw. simpl in H.
      apply andb_true_iff in H as [H _]. now apply negb_true_iff in H.
    + intros dict _. destruct (map fst dict) as [|k ks]; [apply ret_no_throw|].
      apply bind_no_throw; [|intros; apply ret_no_throw].
      apply rows_no_throw; [|exact H]. intros v Hv. apply IHv, Hv.
  - intros value indent level H. cbn -[forM join no_null_row].
    destruct value as [| | | |items|props]; try apply ret_no_throw.
    + apply bind_no_throw; [apply IHl, H | intros; apply ret_no_throw].
    + apply bind_no_throw; [apply IHd, H | intros; apply ret_no_throw].
Qed.

(** X1.  A tree none of whose arrays that start with an object holds a null is
    always rendered: with three calls per nesting level [toToon] returns a
    string. *)
Theorem toToon_returns_without_null_rows (fuel : nat) (v : ToonValue)
    (indent : nat) :
  no_null_row v = true ->
  3 * depth v <= fuel ->
  exists s, Core.toToon fuel v indent = Ret s.
Proof.
  intros Hsafe Hfuel.
  pose proof (toToon_enough_fuel v indent fuel Hfuel) as Hrun.
  assert (Hthrow : no_throw (Core.toToon fuel v indent)).
  { destruct (core_no_throw fuel) as (Hd & Hl & _ & _).
    destruct v; simpl; try apply ret_no_throw; [apply Hl | apply Hd]; exact Hsafe. }
  destruct (Core.toToon fuel v indent) as [s|msg|].
  - eauto.
  - exfalso. exact (Hthrow msg eq_refl).
  - congruence.
Qed.

Lemma toToon_returns_without_null_rows_witness :
  exists s,
    Core.toToon 9
      (VObject [("tags", VArray [VNumber (number_of_nat 1); VNull]);
                ("rows", VArray [VObject [("a", VNull)]])]) 2
    = Ret s.
Proof.
  apply (toToon_returns_without_null_rows 9
           (VObject [("tags", VArray [VNumber (number_of_nat 1); VNull]);
                     ("rows", VArray [VObject [("a", VNull)]])]) 2).
  - reflexivity.
  - vm_compute. lia.
Defined.

(* ----------------------------------------------------------------- *)
(** ** Instances of the general statements above *)

Lemma dictToToon_keeps_key_order_witness :
  exists groups,
    "b: 1" ++ NL ++ "a[1]{c}:" ++ NL ++ "  x" ++ NL ++ "[]"
    = join NL (List.concat groups)
    /\ Forall2 (fun entry group =>
                  entry_lines 2 2 0 entry group
                  /\ opens_with_key (repeat_space (2 * 0)) entry group)
         [("b", VNumber (number_of_nat 1));
          ("a", VArray [VObject [("c", VString "x")]]);
          ("d", VArray [VObject []])]
         groups.
Proof.
  apply (dictToToon_keeps_key_order 2
           [("b", VNumber (number_of_nat 1));
            ("a", VArray [VObject [("c", VString "x")]]);
            ("d", VArray [VObject []])] 2 0).
  - discriminate.
  - reflexivity.
Defined.

Lemma columns_first_seen_witness :
  exists allKeysDict,
    collect_keys false
      [VObject [("name", VNull); ("__proto__", VNull); ("age", VNull)];
       VObject [("name", VNull); ("city", VNull)]] []
    = Ret allKeysDict
    /\ map fst allKeysDict = ["name"; "age"; "city"].
Proof.
  apply (columns_first_seen
           [VObject [("name", VNull); ("__proto__", VNull); ("age", VNull)];
            VObject [("name", VNull); ("city", VNull)]] []).
  repeat constructor.
Defined.

Lemma top_level_policy_disagrees_witness :
  Core.toToon 0 (VString "12:30") 2 <> Core.valueToToon 1 (VString "12:30") 2 0.
Proof.
  apply (top_level_policy_disagrees 0 "12:30" 2 0); reflexivity.
Defined.

(* ----------------------------------------------------------------- *)
(** ** The Go ports: columns under any map iteration order *)

Lemma in_append_new (keys : list string) (k x : string) :
  In x (append_new keys k) <-> In x keys \/ x = k.
Proof.
  unfold append_new. destruct (existsb (String.eqb k) keys) eqn:E.
  - apply existsb_exists in E as (y & Hy & Ey). apply String.eqb_eq in Ey. subst y.
    split; [auto | intros [H | ->]; assumption].
  - rewrite in_app_iff. simpl. intuition.
Qed.

Lemma nodup_append_new (keys : list string) (k : string) :
  NoDup keys -> NoDup (append_new keys k).
Proof.
  intros H. unfold append_new. destruct (existsb (String.eqb k) keys) eqn:E;
    [exact H|].
  apply (Permutation_NoDup (Permutation_cons_append keys k)).
  constructor; [|exact H]. intros Hin.
  assert (T : existsb (String.eqb k) keys = true).
  { apply existsb_exists. exists k. split; [exact Hin | apply String.eqb_refl]. }
  congruence.
Qed.

Lemma in_fold_append_new (keys acc : list string) (x : string) :
  In x (fold_left append_new keys acc) <-> In x acc \/ In x keys.
Proof.
  revert acc. induction keys as [|k keys IH]; intros acc; simpl; [tauto|].
  rewrite IH, in_append_new. intuition.
Qed.

Lemma nodup_fold_append_new (keys acc : list string) :
  NoDup acc -> NoDup (fold_left append_new keys acc).
Proof.
  revert acc. induction keys as [|k keys IH]; intros acc H; simpl; [exact H|].
  apply IH, nodup_append_new, H.
Qed.

Lemma admissible_keys (range_map : map_order) (m : list (string * ToonValue))
    (x : string) :
  admissible range_map -> (In x (map fst (range_map m)) <-> In x (map fst m)).
Proof.
  intros H. pose proof (Permutation_map fst (H m)) as P.
  split; intros Hin.
  - exact (Permutation_in _ P Hin).
  - exact (Permutation_in _ (Permutation_sym P) Hin).
Qed.

Lemma go_collect_keys_spec (range_map : map_order) (data : list ToonValue)
    (acc : list string) :
  admissible range_map ->
  (NoDup acc -> NoDup (go_collect_keys range_map data acc))
  /\ forall x, In x (go_collect_keys range_map data acc) <->
               In x acc \/ In x (keys_of_rows data).
Proof.
  intros Hadm. revert acc.
  induction data as [|row data IH]; intros acc.
  - simpl. split; [auto | intros x; tauto].
  - assert (Skip :
      (NoDup acc -> NoDup (go_collect_keys range_map data acc))
      /\ forall x, In x (go_collect_keys range_map data acc) <->
                   In x acc \/ In x (keys_of_rows data)) by apply IH.
    destruct row as [| | | | |obj]; try exact Skip. clear Skip.
    cbn [go_collect_keys].
    destruct (IH (fold_left append_new (map fst (range_map obj)) acc))
      as [Hnd Hin].
    split.
    + intros H. apply Hnd, nodup_fold_append_new, H.
    + intros x. rewrite Hin, in_fold_append_new, (admissible_keys _ _ _ Hadm).
      unfold keys_of_rows. cbn [flat_map]. rewrite in_app_iff. tauto.
Qed.

(** X21.  Whatever order the maps are visited in, the Go table encoders find the
    same columns, each once: the iteration order decides their order and
    nothing else. *)
Theorem go_columns_up_to_order (order1 order2 : map_order)
    (data : list ToonValue) :
  admissible order1 -> admissible order2 ->
  NoDup (go_collect_keys order1 data [])
  /\ Permutation (go_collect_keys order1 data [])
                 (go_collect_keys order2 data [])
  /\ forall x, In x (go_collect_keys order1 data []) <-> In x (keys_of_rows data).
Proof.
  intros H1 H2.
  destruct (go_collect_keys_spec order1 data [] H1) as [N1 I1].
  destruct (go_collect_keys_spec order2 data [] H2) as [N2 I2].
  split; [apply N1; constructor|]. split.
  - apply NoDup_Permutation; [apply N1; constructor | apply N2; constructor|].
    intros x. rewrite I1, I2. tauto.
  - intros x. rewrite I1. simpl. tauto.
Qed.

Lemma go_columns_up_to_order_witness :
  Permutation
    (go_collect_keys stored_order
       [VObject [("name", VNull); ("age", VNull)]; VObject [("city", VNull)]] [])
    (go_collect_keys reverse_order
       [VObject [("name", VNull); ("age", VNull)]; VObject [("city", VNull)]] []).
Proof.
  apply (go_columns_up_to_order stored_order reverse_order
           [VObject [("name", VNull); ("age", VNull)]; VObject [("city", VNull)]]).
  - apply stored_order_admissible.
  - apply reverse_order_admissible.
Defined.

(* ----------------------------------------------------------------- *)
(** ** part_002: the header count and the rows of a Go table *)

(** X22.  In the Go compact port the text of a table follows from its
    columns and its cells: with no column it is the literal [[]]; otherwise
    the header announces the length of the slice and lists the columns, and
    there is one row for each element that is a map, in order, made of two
    spaces and the cells of that map, one per column, joined by commas; an
    element that is not a map is counted and gets no row. *)
Theorem go_table_shape (range_map : map_order) (fuel : nat) (key : string)
    (first : list (string * ToonValue)) (data : list ToonValue)
    (indent level : nat) (s : string) :
  GoPart002.listOfObjectsToToon range_map (S fuel) key (VObject first :: data)
    indent level = Ret s ->
  let allKeys := go_collect_keys range_map (VObject first :: data) [] in
  allKeys = [] /\ s = "[]"
  \/ allKeys <> []
     /\ exists rowCells,
          table_cells
            (GoPart002.cell range_map
               (fun v => GoPart002.valueToToon range_map fuel v 0 0))
            (filter is_plain_object (VObject first :: data)) allKeys rowCells
          /\ s = join NL
                   ((repeat_space (indent * level) ++ key ++ "["
                       ++ string_of_nat (S (List.length data)) ++ "]{"
                       ++ join "," allKeys ++ "}:")
                    :: map (fun cells => "  " ++ join "," cells) rowCells).
Proof.
  cbn -[forM join filter go_collect_keys]. unfold GoPart002.table. intros H.
  destruct (go_collect_keys range_map (VObject first :: data) [])
    as [|k ks] eqn:Ekeys; [injection H as <-; now left|].
  apply bind_ret in H as (body & Hbody & H). injection H as <-. right.
  split; [discriminate|].
  apply (forM_rows
           (GoPart002.cell range_map
              (fun v => GoPart002.valueToToon range_map fuel v 0 0))
           (fun cells => "  " ++ join "," cells)) in Hbody
    as (rowCells & Hcells & ->).
  exists rowCells. split; [exact Hcells|].
  f_equal. f_equal.
  destruct (String.eqb key "") eqn:E; [|reflexivity].
  apply String.eqb_eq in E. now subst key.
Qed.

Lemma go_table_shape_witness :
  let rows := [VObject [("a", VNumber (number_of_nat 1))];
               VString "x"; VNumber (number_of_nat 7)] in
  let allKeys := go_collect_keys stored_order rows [] in
  allKeys = [] /\ "[3]{a}:" ++ NL ++ "  1" = "[]"
  \/ allKeys <> []
     /\ exists rowCells,
          table_cells
            (GoPart002.cell stored_order
               (fun v => GoPart002.valueToToon stored_order 1 v 0 0))
            (filter is_plain_object rows) allKeys rowCells
          /\ "[3]{a}:" ++ NL ++ "  1"
             = join NL
                 ((repeat_space (2 * 0) ++ "" ++ "["
                     ++ string_of_nat 3 ++ "]{" ++ join "," allKeys ++ "}:")
                  :: map (fun cells => "  " ++ join "," cells) rowCells).
Proof.
  apply (go_table_shape stored_order 1 ""
           [("a", VNumber (number_of_nat 1))]
           [VString "x"; VNumber (number_of_nat 7)] 2 0).
  reflexivity.
Defined.

(* ----------------------------------------------------------------- *)
(** ** go/totoon.go: the Go encoder has no failing path *)

Lemma bind_returns {A B : Type} (m : outcome A) (k : A -> outcome B) :
  returns m -> (forall a, m = Ret a -> returns (k a)) -> returns (bind m k).
Proof. intros (a & ->) Hk. simpl. now apply Hk. Qed.

Lemma forM_returns {A B : Type} (body : A -> outcome B) (l : list A) :
  (forall x, In x l -> returns (body x)) -> returns (forM l body).
Proof.
  induction l as [|x l IH]; intros H; simpl; [now exists []|].
  apply bind_returns; [apply H; now left|]. intros y _.
  apply bind_returns; [apply IH; intros; apply H; now right|].
  intros ys _. now exists (y :: ys).
Qed.

Lemma ret_returns {A : Type} (a : A) : returns (Ret a).
Proof. now exists a. Qed.

Lemma depth_map_index (obj : ToonValue) (k : string) (v : ToonValue) :
  map_index obj k = Some v -> depth v <= depth obj.
Proof.
  destruct obj as [| | | | |m]; simpl; try discriminate.
  intros H. apply lookup_in in H as (k' & H). apply depth_prop in H. lia.
Qed.

Section GoTotoonTotal.
Variable range_map : map_order.
Hypothesis range_map_admissible : admissible range_map.

Lemma go_table_returns (value00 : ToonValue -> outcome string) (key : string)
    (data : list ToonValue) (indent level : nat) :
  (forall v, depth v <= list_max (map depth data) -> returns (value00 v)) ->
  returns (GoTotoon.table range_map value00 key data indent level).
Proof.
  intros Hv. unfold GoTotoon.table.
  destruct (go_collect_keys range_map data []) as [|k ks]; [apply ret_returns|].
  apply bind_returns; [|intros; apply ret_returns].
  apply forM_returns. intros obj Hin. apply filter_In in Hin as [Hin _].
  apply bind_returns; [|intros; apply ret_returns].
  apply forM_returns. intros c _.
  destruct (map_index obj c) as [v|] eqn:E; [|apply ret_returns].
  apply bind_returns; [|intros; apply ret_returns].
  apply Hv. apply depth_map_index in E. apply depth_item in Hin. lia.
Qed.

Lemma go_budget (fuel : nat) :
  (forall data indent level,
      3 * list_max (map (fun p => depth (snd p)) data) + 3 <= fuel ->
      returns (GoTotoon.dictToToon range_map fuel data indent level))
  /\ (forall data indent level,
        3 * list_max (map depth data) + 3 <= fuel ->
        returns (GoTotoon.listToToon range_map fuel data indent level))
  /\ (forall key first data indent level,
        3 * list_max (map depth (VObject first :: data)) + 2 <= fuel ->
        returns (GoTotoon.listOfObjectsToToon range_map fuel key
                   (VObject first :: data) indent level))
  /\ (forall value indent level,
        3 * depth value + 1 <= fuel ->
        returns (GoTotoon.valueToToon range_map fuel value indent level)).
Proof.
  induction fuel as [|fuel (IHd & IHl & IHt & IHv)].
  { split; [|split; [|split]]; intros; lia. }
  split; [|split; [|split]].
  - intros data indent level Hfuel. cbn -[forM join].
    destruct data as [|entry data']; [apply ret_returns|].
    apply bind_returns; [|intros; apply ret_returns].
    apply forM_returns. intros [key value] Hin.
    apply (Permutation_in _ (range_map_admissible (entry :: data'))) in Hin.
    apply depth_prop in Hin.
    destruct value as [| | | |[|first items]|[|p props]];
      try (apply bind_returns; [apply IHv; simpl in *; lia
                               | intros; apply ret_returns]).
    + rewrite depth_VArray in Hin.
      destruct first; simpl is_plain_object; cbv iota;
        (apply bind_returns; [|intros; apply ret_returns]);
        first [apply IHl; lia | apply IHt; lia].
    + rewrite depth_VObject in Hin.
      apply bind_returns; [apply IHd; lia | intros; apply ret_returns].
  - intros data indent level Hfuel. cbn -[forM join].
    destruct data as [|first data']; [apply ret_returns|].
    assert (Items :
      returns
        (bind (forM (first :: data') (fun item =>
                 valueStr <- GoTotoon.valueToToon range_map fuel item indent level ;;
                 Ret (repeat_space (indent * level) ++ "- " ++ valueStr)))
              (fun lines => Ret (join NL lines)))).
    { apply bind_returns; [|intros; apply ret_returns].
      apply forM_returns. intros item Hin.
      apply bind_returns; [|intros; apply ret_returns].
      apply IHv. apply depth_item in Hin. lia. }
    destruct first; try exact Items.
    simpl is_plain_object. cbv iota. apply IHt. lia.
  - intros key first data indent level Hfuel. cbn -[forM join GoTotoon.table].
    apply go_table_returns. intros v Hle. apply IHv. lia.
  - intros value indent level Hfuel. cbn -[forM join].
    destruct value as [| | | |items|props]; try apply ret_returns.
    + rewrite depth_VArray in Hfuel.
      apply bind_returns; [apply IHl; lia | intros; apply ret_returns].
    + rewrite depth_VObject in Hfuel.
      apply bind_returns; [apply IHd; lia | intros; apply ret_returns].
Qed.
End GoTotoonTotal.

(** X20.  The Go port renders every tree, under every map iteration order: three
    calls per nesting level are enough and no path fails; a slice element
    that is not a map is skipped where the TypeScript port would read its
    keys. *)
Theorem go_toToon_returns (range_map : map_order) (fuel : nat)
    (v : ToonValue) (indent level : nat) :
  admissible range_map ->
  3 * depth v <= fuel ->
  exists s, GoTotoon.toToon range_map fuel v indent level = Ret s.
Proof.
  intros Hadm Hfuel.
  destruct (go_budget range_map Hadm fuel) as (Hd & Hl & _ & _).
  destruct v as [| | | |items|props]; simpl; try (eexists; reflexivity).
  - rewrite depth_VArray in Hfuel. apply Hl. lia.
  - rewrite depth_VObject in Hfuel. apply Hd. lia.
Qed.

Lemma go_toToon_returns_witness :
  exists s,
    GoTotoon.toToon reverse_order 6
      (VArray [VObject [("a", VBool true)]; VNull]) 2 0 = Ret s.
Proof.
  apply (go_toToon_returns reverse_order 6
           (VArray [VObject [("a", VBool true)]; VNull]) 2 0).
  - apply reverse_order_admissible.
  - vm_compute. lia.
Defined.

(* ----------------------------------------------------------------- *)
(** ** The converters: flattening an XML element *)

Lemma xmlElementToDict_object (props : list (string * ToonValue)) :
  Converters.xmlElementToDict (VObject props)
  = VObject (fold_left Converters.add_child props (Converters.attributes_of props)).
Proof. reflexivity. Qed.

Lemma js_ordered_nil : js_ordered [].
Proof. split; constructor. Qed.

Lemma js_ordered_assign (entries target : list (string * ToonValue)) :
  js_ordered (map fst target) ->
  js_ordered
    (map fst (fold_left (fun t entry => js_set t (fst entry) (snd entry))
                entries target)).
Proof.
  revert target. induction entries as [|e entries IH]; intros target H; simpl;
    [exact H|].
  apply IH, js_ordered_js_set, H.
Qed.

Lemma js_ordered_attributes (props : list (string * ToonValue)) :
  js_ordered (map fst (Converters.attributes_of props)).
Proof.
  unfold Converters.attributes_of.
  destruct (lookup "$" props) as [attrs|]; [|apply js_ordered_nil].
  destruct (Converters.truthy attrs); [|apply js_ordered_nil].
  apply js_ordered_assign, js_ordered_nil.
Qed.

Lemma assign_keys (entries target : list (string * ToonValue)) (k : string) :
  In k (map fst (fold_left (fun t entry => js_set t (fst entry) (snd entry))
                   entries target))
  <-> In k (map fst target)
      \/ (creates_property k = true /\ In k (map fst entries)).
Proof.
  revert target. induction entries as [|[key value] entries IH]; intros target;
    simpl; [tauto|].
  rewrite IH, in_keys_js_set. simpl. intuition (subst; auto).
Qed.

Lemma attributes_keys (props : list (string * ToonValue)) (k : string) :
  In k (map fst (Converters.attributes_of props))
  <-> creates_property k = true /\ In k (map fst (attribute_entries props)).
Proof.
  unfold Converters.attributes_of, attribute_entries.
  destruct (lookup "$" props) as [attrs|]; [|simpl; tauto].
  destruct (Converters.truthy attrs); [|simpl; tauto].
  unfold Converters.Object_assign. rewrite assign_keys. simpl. tauto.
Qed.

Lemma child_name_spec (k : string) :
  child_name k = true <-> k <> "$" /\ k <> "__proto__".
Proof.
  unfold child_name. rewrite andb_true_iff, creates_property_spec.
  rewrite Bool.negb_true_iff, String.eqb_neq. reflexivity.
Qed.

Lemma add_children_keys (props result : list (string * ToonValue)) :
  js_ordered (map fst result) ->
  js_ordered (map fst (fold_left Converters.add_child props result))
  /\ forall k,
       In k (map fst (fold_left Converters.add_child props result)) <->
       In k (map fst result) \/ (child_name k = true /\ In k (map fst props)).
Proof.
  revert result. induction props as [|[key value] props IH]; intros result H.
  - simpl. split; [exact H | intros k; tauto].
  - cbn [fold_left Converters.add_child].
    destruct (String.eqb key "$") eqn:E.
    + apply String.eqb_eq in E. subst key.
      destruct (IH result H) as [Hord Hin]. split; [exact Hord|].
      intros k. rewrite Hin, child_name_spec. simpl. intuition congruence.
    + apply String.eqb_neq in E.
      destruct (IH _ (js_ordered_js_set result key
                        (Converters.child_value value) H)) as [Hord Hin].
      split; [exact Hord|].
      intros k. rewrite Hin, in_keys_js_set, child_name_spec,
        creates_property_spec. simpl. intuition congruence.
Qed.

(** X23.  An element becomes one object: its keys are the attribute names and
    the names of the children, the key [$] of the attribute map apart, each
    once and in the order a JavaScript object keeps; the name [__proto__],
    of an attribute or of a child, gives no key. *)
Theorem xml_element_is_flattened (props : list (string * ToonValue)) :
  exists result,
    Converters.xmlElementToDict (VObject props) = VObject result
    /\ js_ordered (map fst result)
    /\ forall k,
         In k (map fst result) <->
         k <> "__proto__"
         /\ (In k (map fst (attribute_entries props))
             \/ (k <> "$" /\ In k (map fst props))).
Proof.
  rewrite xmlElementToDict_object. eexists. split; [reflexivity|].
  destruct (add_children_keys props _ (js_ordered_attributes props))
    as [Hord Hin].
  split; [exact Hord|]. intros k.
  rewrite Hin, attributes_keys, child_name_spec, creates_property_spec. tauto.
Qed.

Lemma lookup_js_set_other {A : Type} (o : list (string * A)) (k : string)
    (v : A) (x : string) :
  k <> x -> lookup x (js_set o k v) = lookup x o.
Proof.
  intros H. unfold js_set. destruct (has_key k o) eqn:E.
  - rewrite lookup_overwrite by exact E.
    apply String.eqb_neq in H. now rewrite H.
  - destruct (String.eqb k "__proto__"); [reflexivity|].
    rewrite lookup_insert_new_key by exact E.
    apply String.eqb_neq in H. now rewrite H.
Qed.

Lemma lookup_add_children_other (props result : list (string * ToonValue))
    (k : string) :
  (k = "$" \/ ~ In k (map fst props)) ->
  lookup k (fold_left Converters.add_child props result) = lookup k result.
Proof.
  revert result. induction props as [|[key value] props IH]; intros result H;
    [reflexivity|].
  cbn [fold_left Converters.add_child].
  assert (Hrest : k = "$" \/ ~ In k (map fst props)).
  { destruct H as [H | H]; [now left | right; simpl in H; tauto]. }
  destruct (String.eqb key "$") eqn:E; [apply IH, Hrest|].
  rewrite (IH _ Hrest). apply lookup_js_set_other.
  apply String.eqb_neq in E.
  destruct H as [H | H]; [congruence | simpl in H; tauto].
Qed.

Lemma lookup_add_children (props result : list (string * ToonValue))
    (key : string) (value : ToonValue) :
  NoDup (map fst props) -> In (key, value) props -> child_name key = true ->
  lookup key (fold_left Converters.add_child props result)
  = Some (Converters.child_value value).
Proof.
  revert result. induction props as [|[key' value'] props IH];
    intros result Hnd Hin Hkey; [destruct Hin|].
  simpl in Hnd. inversion Hnd as [|? ? Hnot Hnd']; subst.
  cbn [fold_left Converters.add_child].
  destruct Hin as [[= -> ->] | Hin].
  - unfold child_name in Hkey. apply andb_true_iff in Hkey as [Hkey Hc].
    apply Bool.negb_true_iff in Hkey. rewrite Hkey.
    rewrite lookup_add_children_other by (right; exact Hnot).
    rewrite lookup_js_set by (left; exact Hc).
    now rewrite String.eqb_refl.
  - destruct (String.eqb key' "$"); now apply IH.
Qed.

Lemma lookup_assign (entries target : list (string * ToonValue))
    (k : string) (v : ToonValue) :
  NoDup (map fst entries) -> In (k, v) entries -> creates_property k = true ->
  lookup k (fold_left (fun t entry => js_set t (fst entry) (snd entry))
              entries target)
  = Some v.
Proof.
  revert target. induction entries as [|[k' v'] entries IH];
    intros target Hnd Hin Hk; [destruct Hin|].
  simpl in Hnd. inversion Hnd as [|? ? Hnot Hnd']; subst.
  cbn [fold_left fst snd].
  destruct Hin as [[= -> ->] | Hin]; [|now apply IH].
  assert (Rest : forall t,
    lookup k (fold_left (fun t entry => js_set t (fst entry) (snd entry))
                entries t) = lookup k t).
  { clear IH Hnd Hnd'. induction entries as [|[k' v'] entries IH]; intros t;
      [reflexivity|].
    cbn [fold_left fst snd]. simpl in Hnot.
    rewrite IH by tauto. apply lookup_js_set_other. tauto. }
  rewrite Rest, lookup_js_set by (left; exact Hk).
  now rewrite String.eqb_refl.
Qed.

(** X24.  In the flattened object every child is found under its name with
    its converted value, also when an attribute has the same name, and an
    attribute whose name no child has keeps its value; the names [$] and
    [__proto__] apart. *)
Theorem xml_child_overrides_attribute (props : list (string * ToonValue)) :
  NoDup (map fst props) ->
  NoDup (map fst (attribute_entries props)) ->
  exists result,
    Converters.xmlElementToDict (VObject props) = VObject result
    /\ (forall key value,
          In (key, value) props -> key <> "$" -> key <> "__proto__" ->
          lookup key result = Some (Converters.child_value value))
    /\ (forall k v,
          In (k, v) (attribute_entries props) -> k <> "__proto__" ->
          ~ In k (map fst props) ->
          lookup k result = Some v).
Proof.
  intros Hnd Hattrs. rewrite xmlElementToDict_object. eexists.
  split; [reflexivity|]. split.
  - intros key value Hin Hkey Hproto. apply lookup_add_children; try assumption.
    apply child_name_spec. now split.
  - intros k v Hin Hproto Hk.
    rewrite lookup_add_children_other by (right; exact Hk).
    revert Hattrs Hin. unfold Converters.attributes_of, attribute_entries.
    destruct (lookup "$" props) as [attrs|]; [|intros _ []].
    destruct (Converters.truthy attrs); [|intros _ []].
    intros Hattrs Hin. apply lookup_assign; try assumption.
    now apply creates_property_spec.
Qed.

Lemma xml_child_overrides_attribute_witness :
  exists result,
    Converters.xmlElementToDict
      (VObject [("$", VObject [("id", VString "7"); ("lang", VString "en")]);
                ("id", VArray [VString "9"])])
    = VObject result
    /\ (forall key value,
          In (key, value)
            [("$", VObject [("id", VString "7"); ("lang", VString "en")]);
             ("id", VArray [VString "9"])] ->
          key <> "$" -> key <> "__proto__" ->
          lookup key result = Some (Converters.child_value value))
    /\ (forall k v,
          In (k, v)
            (attribute_entries
               [("$", VObject [("id", VString "7"); ("lang", VString "en")]);
                ("id", VArray [VString "9"])]) ->
          k <> "__proto__" ->
          ~ In k (map fst
                    [("$", VObject [("id", VString "7"); ("lang", VString "en")]);
                     ("id", VArray [VString "9"])]) ->
          lookup k result = Some v).
Proof.
  apply (xml_child_overrides_attribute
           [("$", VObject [("id", VString "7"); ("lang", VString "en")]);
            ("id", VArray [VString "9"])]).
  - repeat constructor; simpl; intuition discriminate.
  - repeat constructor; simpl; intuition discriminate.
Defined.

Lemma js_set_keys_plain {A : Type} (o : list (string * A)) (k : string) (v : A) :
  array_index k = None ->
  map fst (js_set o k v)
  = if creates_property k then append_new (map fst o) k else map fst o.
Proof.
  intros H. unfold js_set, append_new, creates_property. rewrite has_key_spec.
  destruct (existsb _ _).
  - rewrite overwrite_keys. now destruct (negb _).
  - destruct (String.eqb k "__proto__"); simpl; [reflexivity|].
    rewrite insert_new_key_plain by assumption.
    rewrite map_app. reflexivity.
Qed.

(** X25.  When no child name is an array index, the fields come in document
    order: the attributes first, then each child where its name first
    occurs, the names [$] and [__proto__] left out. *)
Theorem xml_fields_keep_document_order (props : list (string * ToonValue)) :
  Forall (fun k => array_index k = None) (map fst props) ->
  exists result,
    Converters.xmlElementToDict (VObject props) = VObject result
    /\ map fst result
       = fold_left append_new (filter child_name (map fst props))
           (map fst (Converters.attributes_of props)).
Proof.
  intros H. rewrite xmlElementToDict_object. eexists. split; [reflexivity|].
  generalize (Converters.attributes_of props) as result.
  induction props as [|[key value] props IH]; intros result; [reflexivity|].
  simpl in H. inversion H as [|? ? Hkey Hrest]; subst.
  cbn [fold_left Converters.add_child map fst filter]. unfold child_name at 1.
  destruct (String.eqb key "$"); cbn [negb andb]; [apply IH, Hrest|].
  rewrite (IH Hrest), js_set_keys_plain by assumption.
  now destruct (creates_property key).
Qed.

Lemma xml_fields_keep_document_order_witness :
  exists result,
    Converters.xmlElementToDict
      (VObject [("$", VObject [("id", VString "7")]);
                ("name", VArray [VString "Alice"]);
                ("__proto__", VArray [VString "x"]);
                ("age", VArray [VString "30"])])
    = VObject result
    /\ map fst result = ["id"; "name"; "age"].
Proof.
  apply (xml_fields_keep_document_order
           [("$", VObject [("id", VString "7")]);
            ("name", VArray [VString "Alice"]);
            ("__proto__", VArray [VString "x"]);
            ("age", VArray [VString "30"])]).
  repeat constructor.
Defined.

(** X26.  What the three converters return does not end with a line break,
    whatever the parsers hand them. *)
Theorem converters_no_trailing_newline
    (JSON_parse yaml_load parseXml : string -> outcome ToonValue)
    (fuel : nat) (data : string + ToonValue) (text s : string) :
  Converters.jsonToToon JSON_parse fuel data = Ret s
  \/ Converters.yamlToToon yaml_load fuel data = Ret s
  \/ Converters.xmlToToon parseXml fuel text = Ret s ->
  endsWith char_newline s = false.
Proof.
  intros H. apply endsWith_false.
  unfold Converters.jsonToToon, Converters.yamlToToon, Converters.xmlToToon in H.
  destruct H as [H | [H | H]].
  - destruct data as [t | parsed];
      [apply bind_ret in H as (parsed & _ & H)|]; exact (toToon_tail _ _ _ _ H).
  - destruct data as [t | parsed];
      [apply bind_ret in H as (parsed & _ & H)|]; exact (toToon_tail _ _ _ _ H).
  - apply bind_ret in H as (parsed & _ & H). exact (toToon_tail _ _ _ _ H).
Qed.

Lemma converters_no_trailing_newline_witness :
  endsWith char_newline ("name: Alice" ++ NL ++ "age: 30") = false.
Proof.
  apply (converters_no_trailing_newline
           (fun _ => Throw "SyntaxError") (fun _ => Throw "YAMLException")
           (fun _ => Ret (VObject [("name", VArray [VString "Alice"]);
                                   ("age", VArray [VString "30"])]))
           2 (inl "") "<name>Alice</name><age>30</age>").
  right. right. reflexivity.
Defined.

(* ----------------------------------------------------------------- *)
(** ** core.ts and part_000 side by side *)

Lemma forM_ext {A B : Type} (f g : A -> outcome B) (l : list A) :
  (forall x, In x l -> f x = g x) -> forM l f = forM l g.
Proof.
  induction l as [|x l IH]; intros H; simpl; [reflexivity|].
  rewrite (H x) by now left. rewrite IH; [reflexivity|].
  intros y Hy. apply H. now right.
Qed.

Lemma test_class_false_incl (cls cls' : list ascii) (s : string) :
  incl cls cls' -> test_class cls' s = false -> test_class cls s = false.
Proof.
  intros Hincl H. destruct (test_class cls s) eqn:E; [|reflexivity].
  apply (test_class_incl _ _ _ Hincl) in E. congruence.
Qed.

Lemma plain_string_both (s : string) :
  plain_tree (VString s) = true ->
  Core.valueToToon_string s = s /\ Part000.escape_string s = s.
Proof.
  simpl. intros H. apply negb_true_iff in H.
  unfold Core.valueToToon_string, Part000.escape_string.
  assert (H1 : test_class [char_newline; char_tab; char_cr] s = false).
  { revert H. apply test_class_false_incl. intros c Hc. simpl in *. tauto. }
  assert (H2 : test_class
                 [char_newline; char_tab; char_colon; char_pipe; char_dquote] s
               = false).
  { revert H. apply test_class_false_incl. intros c Hc. simpl in *. tauto. }
  rewrite H1, H2. split; reflexivity.
Qed.

Lemma plain_tree_item (items : list ToonValue) (x : ToonValue) :
  plain_tree (VArray items) = true -> In x items -> plain_tree x = true.
Proof.
  simpl. intros H Hin. apply andb_true_iff in H as [_ H].
  rewrite forallb_forall in H. now apply H.
Qed.

Lemma plain_tree_prop (props : list (string * ToonValue)) (k : string)
    (x : ToonValue) :
  plain_tree (VObject props) = true -> In (k, x) props -> plain_tree x = true.
Proof.
  simpl. intros H Hin. rewrite forallb_forall in H. exact (H _ Hin).
Qed.

Lemma plain_tree_first (first : ToonValue) (items : list ToonValue) :
  plain_tree (VArray (first :: items)) = true -> is_plain_object first = false.
Proof.
  simpl. intros H. apply andb_true_iff in H as [H _].
  destruct first; try reflexivity. discriminate.
Qed.

Lemma versions_agree_inside (fuel : nat) :
  (forall data indent level,
      plain_tree (VObject data) = true ->
      Core.dictToToon fuel data indent level
      = Part000.dictToToon fuel data indent level)
  /\ (forall data indent level,
        plain_tree (VArray data) = true ->
        Core.listToToon fuel data indent level
        = Part000.listToToon fuel data indent level)
  /\ (forall value indent level,
        plain_tree value = true ->
        Core.valueToToon fuel value indent level
        = Part000.valueToToon fuel value indent level).
Proof.
  induction fuel as [|fuel (IHd & IHl & IHv)].
  { split; [|split]; reflexivity. }
  split; [|split].
  - intros data indent level H.
    cbn -[forM join plain_tree]. destruct data as [|entry data']; [reflexivity|].
    f_equal. apply forM_ext. intros [key value] Hin.
    pose proof (plain_tree_prop _ _ _ H Hin) as Hv.
    destruct value as [| | | |[|first items]|[|p props]];
      try (rewrite (IHv _ _ _ Hv); reflexivity).
    + rewrite (plain_tree_first _ _ Hv), (IHl _ _ _ Hv). reflexivity.
    + rewrite (IHd _ _ _ Hv). reflexivity.
  - intros data indent level H.
    cbn -[forM join plain_tree]. destruct data as [|first data']; [reflexivity|].
    rewrite (plain_tree_first _ _ H).
    f_equal. apply forM_ext. intros item Hin.
    rewrite (IHv _ _ _ (plain_tree_item _ _ H Hin)). reflexivity.
  - intros value indent level H.
    cbn -[forM join plain_tree].
    destruct value as [| | |s|items|props]; try reflexivity.
    + destruct (plain_string_both s H) as [-> ->]. reflexivity.
    + rewrite (IHl _ _ _ H). reflexivity.
    + rewrite (IHd _ _ _ H). reflexivity.
Qed.

(** X17.  The two TypeScript versions return the same text on every tree without
    an array of objects whose strings need no quoting under either policy:
    they differ only through the table layout and the quoting of strings. *)
Theorem versions_agree_on_plain_trees (fuel : nat) (v : ToonValue)
    (indent : nat) :
  plain_tree v = true ->
  Core.toToon fuel v indent = Part000.toToon fuel v indent.
Proof.
  intros H. destruct (versions_agree_inside fuel) as (Hd & Hl & _).
  destruct v as [| | |s|items|props]; try reflexivity.
  - apply Hl, H.
  - apply Hd, H.
Qed.

Lemma versions_agree_on_plain_trees_witness :
  Core.toToon 4
    (VObject [("name", VString "Alice"); ("tags", VArray [VString "a"; VNull])]) 2
  = Part000.toToon 4
      (VObject [("name", VString "Alice"); ("tags", VArray [VString "a"; VNull])]) 2.
Proof.
  apply (versions_agree_on_plain_trees 4
           (VObject [("name", VString "Alice");
                     ("tags", VArray [VString "a"; VNull])]) 2).
  reflexivity.
Defined.

(* ----------------------------------------------------------------- *)
(** ** part_000: the shape of a pipe table *)

(** X19.  The text of a pipe table follows from its columns and its cells:
    with no column it is the literal [[]]; otherwise it is the label line of
    a keyed table (the table is then one level deeper), the columns joined
    by [ | ], a separator with one dash group per column, and one row per
    element of the array, in order, made of the cells of that element, one
    per column, joined by [ | ]. *)
Theorem pipe_table_shape (fuel : nat) (key : string)
    (first : list (string * ToonValue)) (data : list ToonValue)
    (indent level : nat) (s : string) :
  Part000.listOfObjectsToToon (S fuel) key (VObject first :: data) indent level
  = Ret s ->
  exists allKeysDict,
    collect_keys false (VObject first :: data) [] = Ret allKeysDict
    /\ (map fst allKeysDict = [] /\ s = "[]"
        \/ map fst allKeysDict <> []
           /\ exists rowCells,
                let allKeys := map fst allKeysDict in
                let label :=
                  if String.eqb key "" then []
                  else [repeat_space (indent * level) ++ key ++ ":"] in
                let prefix :=
                  if String.eqb key "" then repeat_space (indent * level)
                  else repeat_space (indent * (level + 1)) in
                table_cells
                  (Part000.cell (fun v => Part000.valueToToon fuel v 0 0))
                  (VObject first :: data) allKeys rowCells
                /\ s = join NL
                         (label
                          ++ [prefix ++ join " | " allKeys;
                              prefix ++ join " | " (map (fun _ => "---") allKeys)]
                          ++ map (fun cells => prefix ++ join " | " cells)
                               rowCells)).
Proof.
  cbn -[forM join]. intros H.
  apply bind_ret in H as (dict & Hdict & H). exists dict.
  split; [exact Hdict|].
  destruct (map fst dict) as [|k ks] eqn:Ekeys; [injection H as <-; now left|].
  apply bind_ret in H as (body & Hbody & H). injection H as <-. right.
  split; [discriminate|].
  set (prefix := if String.eqb key "" then repeat_space (indent * level)
                 else repeat_space (indent * (level + 1))) in *.
  apply (forM_rows (Part000.cell (fun v => Part000.valueToToon fuel v 0 0))
           (fun cells => prefix ++ join " | " cells)) in Hbody
    as (rowCells & Hcells & ->).
  exists rowCells. split; [exact Hcells | reflexivity].
Qed.

Lemma pipe_table_shape_witness :
  exists allKeysDict,
    collect_keys false [VObject [("name", VString "Alice")]] [] = Ret allKeysDict
    /\ (map fst allKeysDict = []
        /\ "users:" ++ NL ++ "  name" ++ NL ++ "  ---" ++ NL ++ "  Alice" = "[]"
        \/ map fst allKeysDict <> []
           /\ exists rowCells,
                let allKeys := map fst allKeysDict in
                let label :=
                  if String.eqb "users" "" then []
                  else [repeat_space (2 * 0) ++ "users" ++ ":"] in
                let prefix :=
                  if String.eqb "users" "" then repeat_space (2 * 0)
                  else repeat_space (2 * (0 + 1)) in
                table_cells
                  (Part000.cell (fun v => Part000.valueToToon 1 v 0 0))
                  [VObject [("name", VString "Alice")]] allKeys rowCells
                /\ "users:" ++ NL ++ "  name" ++ NL ++ "  ---" ++ NL ++ "  Alice"
                   = join NL
                       (label
                        ++ [prefix ++ join " | " allKeys;
                            prefix ++ join " | " (map (fun _ => "---") allKeys)]
                        ++ map (fun cells => prefix ++ join " | " cells)
                             rowCells)).
Proof.
  apply (pipe_table_shape 1 "users" [("name", VString "Alice")] [] 2 0).
  reflexivity.
Defined.

(* ----------------------------------------------------------------- *)
(** ** core.ts: delimiters in a scalar cell *)

(** X14.  A scalar cell is either inside double quotes or free of the characters
    that structure a row: comma, colon, semicolon and line break. *)
Theorem scalar_cell_quoted_or_plain (valueStr : string) :
  (startsWith char_dquote (Core.scalar_cell valueStr) = true
   /\ endsWith char_dquote (Core.scalar_cell valueStr) = true)
  \/ (includes char_comma (Core.scalar_cell valueStr) = false
      /\ includes char_newline (Core.scalar_cell valueStr) = false
      /\ includes char_colon (Core.scalar_cell valueStr) = false
      /\ includes char_semicolon (Core.scalar_cell valueStr) = false).
Proof.
  unfold Core.scalar_cell.
  destruct (startsWith char_dquote valueStr && endsWith char_dquote valueStr)
    eqn:Q; simpl negb; cbv iota.
  - left. now apply andb_true_iff in Q.
  - destruct (includes char_comma valueStr || includes char_newline valueStr
              || includes char_colon valueStr || includes char_semicolon valueStr)
      eqn:D.
    + left. split; [apply startsWith_quote | apply endsWith_quote].
    + right. repeat (apply orb_false_iff in D as [D ?]). auto.
Qed.

Lemma wrap_if_any_rewraps_witness :
  Core.wrap_if_any [char_comma; char_colon] (quote "a,b") = quote (quote "a,b").
Proof.
  apply (wrap_if_any_rewraps [char_comma; char_colon] "a,b"). reflexivity.
Defined.

(* ----------------------------------------------------------------- *)
(** ** The converters: from a parsed XML document to text *)

(** Induction over a tree: the property of an array or object follows from
    the property of what it holds. *)
Lemma ToonValue_induction (P : ToonValue -> Prop) :
  P VNull -> (forall b, P (VBool b)) -> (forall n, P (VNumber n)) ->
  (forall s, P (VString s)) ->
  (forall items, Forall P items -> P (VArray items)) ->
  (forall props, Forall (fun p => P (snd p)) props -> P (VObject props)) ->
  forall v, P v.
Proof.
  intros Hnull Hbool Hnum Hstr Harr Hobj.
  fix IH 1. intros [|b|n|s|items|props].
  - exact Hnull.
  - apply Hbool.
  - apply Hnum.
  - apply Hstr.
  - apply Harr. induction items as [|x items IHitems]; constructor.
    + apply IH.
    + exact IHitems.
  - apply Hobj. induction props as [|[k x] props IHprops]; constructor.
    + apply IH.
    + exact IHprops.
Qed.

(** An assignment stores the new value and keeps the others. *)
Lemma overwrite_values {A : Type} (P : A -> Prop) (k : string) (v : A)
    (o : list (string * A)) :
  P v -> Forall (fun e => P (snd e)) o ->
  Forall (fun e => P (snd e)) (overwrite k v o).
Proof.
  intros Hv. induction 1 as [|[k' v'] o Hx Ho IH]; simpl; [constructor|].
  destruct (String.eqb k' k); constructor; assumption.
Qed.

Lemma insert_new_key_values {A : Type} (P : A -> Prop) (k : string) (v : A)
    (o : list (string * A)) :
  P v -> Forall (fun e => P (snd e)) o ->
  Forall (fun e => P (snd e)) (insert_new_key k v o).
Proof.
  intros Hv. induction 1 as [|[k' v'] o Hx Ho IH]; simpl.
  - destruct (array_index k); repeat constructor; exact Hv.
  - destruct (array_index k).
    + destruct (array_index k'); [destruct (_ <? _)%N|];
        repeat (constructor; try assumption).
    + constructor; [assumption|]. apply Forall_app. split; [assumption|].
      constructor; [exact Hv | constructor].
Qed.

Lemma js_set_values {A : Type} (P : A -> Prop) (o : list (string * A))
    (k : string) (v : A) :
  P v -> Forall (fun e => P (snd e)) o ->
  Forall (fun e => P (snd e)) (js_set o k v).
Proof.
  intros Hv Ho. unfold js_set. destruct (has_key k o).
  - now apply overwrite_values.
  - destruct (String.eqb k "__proto__"); [exact Ho|].
    now apply insert_new_key_values.
Qed.

Lemma lookup_values {A : Type} (P : A -> Prop) (k : string) (v : A)
    (o : list (string * A)) :
  Forall (fun e => P (snd e)) o -> lookup k o = Some v -> P v.
Proof.
  induction 1 as [|[k' v'] o Hx Ho IH]; simpl; [discriminate|].
  destruct (String.eqb k' k); [|exact IH].
  intros E. injection E as <-. exact Hx.
Qed.

Lemma combine_values {A : Type} (P : A -> Prop) (keys : list string) (l : list A) :
  Forall P l -> Forall (fun e => P (snd e)) (combine keys l).
Proof.
  intros H. revert keys. induction H as [|x l Hx Hl IH]; intros [|k keys]; simpl;
    constructor; [exact Hx | apply IH].
Qed.

Lemma no_null_array (items : list ToonValue) :
  no_null (VArray items) = true <-> Forall (fun v => no_null v = true) items.
Proof.
  simpl. rewrite forallb_forall, Forall_forall. reflexivity.
Qed.

Lemma no_null_object (props : list (string * ToonValue)) :
  no_null (VObject props) = true
  <-> Forall (fun p => no_null (snd p) = true) props.
Proof.
  simpl. rewrite forallb_forall, Forall_forall. reflexivity.
Qed.

Lemma chars_no_null (s : string) :
  Forall (fun v => no_null v = true) (Converters.chars s).
Proof.
  induction s as [|c s IH]; simpl; constructor; [reflexivity | exact IH].
Qed.

Lemma Object_entries_no_null (v : ToonValue) :
  no_null v = true ->
  Forall (fun p => no_null (snd p) = true) (Converters.Object_entries v).
Proof.
  destruct v as [|b|n|s|items|props]; intros H; simpl; try constructor.
  - apply (combine_values (fun v => no_null v = true)), chars_no_null.
  - apply (combine_values (fun v => no_null v = true)), no_null_array, H.
  - apply no_null_object, H.
Qed.

Lemma attributes_no_null (props : list (string * ToonValue)) :
  Forall (fun p => no_null (snd p) = true) props ->
  Forall (fun p => no_null (snd p) = true) (Converters.attributes_of props).
Proof.
  intros Hprops. unfold Converters.attributes_of.
  destruct (lookup "$" props) as [attrs|] eqn:E; [|constructor].
  destruct (Converters.truthy attrs); [|constructor].
  pose proof (lookup_values (fun v => no_null v = true) _ _ _ Hprops E) as Hattrs.
  apply Object_entries_no_null in Hattrs.
  unfold Converters.Object_assign.
  assert (G : forall target,
    Forall (fun p => no_null (snd p) = true) target ->
    Forall (fun p => no_null (snd p) = true)
      (fold_left (fun t entry => js_set t (fst entry) (snd entry))
         (Converters.Object_entries attrs) target)).
  { induction Hattrs as [|e es He Hes IH]; intros target Ht; simpl;
      [exact Ht|].
    apply IH, (js_set_values (fun v => no_null v = true)); assumption. }
  apply G. constructor.
Qed.

Lemma child_value_no_null (value : ToonValue) :
  (no_null value = true -> no_null (Converters.xmlElementToDict value) = true) ->
  no_null value = true -> no_null (Converters.child_value value) = true.
Proof.
  intros IH H. specialize (IH H).
  destruct value as [|b|n|s|items|props]; try exact H; try exact IH.
  destruct items as [|child [|second rest]]; try exact IH.
  simpl in IH. rewrite Bool.andb_true_r in IH.
  destruct child as [|b|n|s|[|x xs]|[|p ps]]; try exact IH; reflexivity.
Qed.

(** Flattening a parsed document brings in no null. *)
Lemma xmlElementToDict_no_null (element : ToonValue) :
  no_null element = true ->
  no_null (Converters.xmlElementToDict element) = true.
Proof.
  induction element as [| | | |items IH|props IH] using ToonValue_induction;
    intros H; try exact H.
  - apply no_null_array in H. simpl. apply forallb_forall. intros x Hx.
    apply in_map_iff in Hx. destruct Hx as [y [<- Hy]].
    rewrite Forall_forall in IH, H. apply IH; [exact Hy | apply H, Hy].
  - apply no_null_object in H.
    change (Converters.xmlElementToDict (VObject props))
      with (VObject (fold_left Converters.add_child props
                       (Converters.attributes_of props))).
    apply no_null_object.
    pose proof (attributes_no_null props H) as Hstart.
    generalize dependent (Converters.attributes_of props).
    induction props as [|[key value] props IHprops]; intros result Hresult;
      simpl; [exact Hresult|].
    inversion IH as [|? ? IHvalue IHrest]; subst.
    inversion H as [|? ? Hvalue Hrest]; subst.
    apply IHprops; try assumption.
    destruct (String.eqb key "$"); [exact Hresult|].
    apply (js_set_values (fun v => no_null v = true)); [|exact Hresult].
    apply child_value_no_null; assumption.
Qed.

(** A tree without null has no null row. *)
Lemma no_null_no_null_row (v : ToonValue) :
  no_null v = true -> no_null_row v = true.
Proof.
  induction v as [| | | |items IH|props IH] using ToonValue_induction;
    intros H; try reflexivity.
  - apply no_null_array in H. simpl. apply andb_true_intro. split.
    + destruct items as [|[| | | | |first] rest]; try reflexivity.
      apply Bool.negb_true_iff. apply Bool.not_true_is_false. intros E.
      apply existsb_exists in E. destruct E as [x [Hx Hnull]].
      rewrite Forall_forall in H. specialize (H x Hx).
      destruct x; discriminate.
    + apply forallb_forall. intros x Hx. rewrite Forall_forall in IH, H.
      apply IH; [exact Hx | apply H, Hx].
  - apply no_null_object in H. simpl. apply forallb_forall. intros p Hp.
    rewrite Forall_forall in IH, H. apply IH; [exact Hp | apply H, Hp].
Qed.

Lemma list_max_map_le {A : Type} (f g : A -> nat) (l : list A) :
  Forall (fun x => f x <= g x) l ->
  list_max (map f l) <= list_max (map g l).
Proof.
  induction 1 as [|x l Hx Hl IH]; simpl; lia.
Qed.

Lemma depth_prop_le (props : list (string * ToonValue)) :
  Forall (fun p => depth (snd p) <= list_max (map (fun p => depth (snd p)) props))
    props.
Proof.
  apply Forall_forall. intros p Hp.
  pose proof (proj1 (list_max_le (map (fun p => depth (snd p)) props) _)
                (Nat.le_refl _)) as H.
  rewrite Forall_forall in H. apply H. apply in_map_iff. now exists p.
Qed.

Lemma Object_entries_depth (v : ToonValue) :
  Forall (fun p => depth (snd p) <= depth v) (Converters.Object_entries v).
Proof.
  destruct v as [|b|n|s|items|props]; simpl; try constructor.
  - apply (combine_values (fun v => depth v <= 0)).
    induction s as [|c s IH]; simpl; constructor; [apply Nat.le_refl | exact IH].
  - apply (combine_values (fun v => depth v <= S (list_max (map depth items)))).
    apply Forall_forall. intros x Hx.
    pose proof (proj1 (list_max_le (map depth items) _) (Nat.le_refl _)) as H.
    rewrite Forall_forall in H. apply Nat.le_le_succ_r, H, in_map, Hx.
  - eapply Forall_impl; [|apply depth_prop_le]. simpl. intros p Hp. lia.
Qed.

Lemma attributes_depth (props : list (string * ToonValue)) (n : nat) :
  Forall (fun p => depth (snd p) <= n) props ->
  Forall (fun p => depth (snd p) <= n) (Converters.attributes_of props).
Proof.
  intros Hprops. unfold Converters.attributes_of.
  destruct (lookup "$" props) as [attrs|] eqn:E; [|constructor].
  destruct (Converters.truthy attrs); [|constructor].
  pose proof (lookup_values (fun v => depth v <= n) _ _ _ Hprops E) as Hattrs.
  cbv beta in Hattrs.
  assert (Hentries : Forall (fun p => depth (snd p) <= n)
                       (Converters.Object_entries attrs)).
  { eapply Forall_impl; [|apply Object_entries_depth].
    cbv beta. intros p Hp. lia. }
  unfold Converters.Object_assign.
  assert (G : forall target,
    Forall (fun p => depth (snd p) <= n) target ->
    Forall (fun p => depth (snd p) <= n)
      (fold_left (fun t entry => js_set t (fst entry) (snd entry))
         (Converters.Object_entries attrs) target)).
  { induction Hentries as [|e es He Hes IH]; intros target Ht; simpl;
      [exact Ht|].
    apply IH, (js_set_values (fun v => depth v <= n)); assumption. }
  apply G. constructor.
Qed.

Lemma child_value_depth (value : ToonValue) :
  depth (Converters.xmlElementToDict value) <= depth value ->
  depth (Converters.child_value value) <= depth value.
Proof.
  intros IH.
  destruct value as [|b|n|s|items|props]; try exact IH; try apply Nat.le_refl.
  destruct items as [|child [|second rest]]; try exact IH.
  simpl in IH.
  destruct child as [|b|n|s|[|x xs]|[|p ps]];
    try (simpl; lia);
    match goal with
    | |- depth (Converters.child_value (VArray [?c])) <= _ =>
        change (depth (Converters.xmlElementToDict c)
                <= S (Nat.max (depth c) 0));
        remember c as child eqn:Echild; clear Echild
    end;
    lia.
Qed.

(** Flattening a parsed document never deepens it. *)
Lemma xmlElementToDict_depth (element : ToonValue) :
  depth (Converters.xmlElementToDict element) <= depth element.
Proof.
  induction element as [| | | |items IH|props IH] using ToonValue_induction;
    try apply Nat.le_refl.
  - simpl. rewrite map_map. apply le_n_S, list_max_map_le, IH.
  - change (Converters.xmlElementToDict (VObject props))
      with (VObject (fold_left Converters.add_child props
                       (Converters.attributes_of props))).
    simpl. apply le_n_S. apply list_max_le. apply Forall_map.
    pose proof (depth_prop_le props) as Hprops.
    pose proof (attributes_depth props _ Hprops) as Hstart.
    generalize dependent (Converters.attributes_of props).
    generalize dependent (list_max (map (fun p => depth (snd p)) props)).
    intros n Hprops.
    induction props as [|[key value] props IHprops]; intros result Hresult;
      simpl; [exact Hresult|].
    inversion IH as [|? ? IHvalue IHrest]; subst.
    inversion Hprops as [|? ? Hvalue Hrest]; subst.
    apply IHprops; try assumption.
    destruct (String.eqb key "$"); [exact Hresult|].
    apply (js_set_values (fun v => depth v <= n)); [|exact Hresult].
    apply child_value_depth in IHvalue. simpl in *. lia.
Qed.

(** X27.  A parsed document that holds no null is always converted: with
    three calls per nesting level of the document [xmlToToon] returns a
    string, whatever the elements and attributes are. *)
Theorem xmlToToon_returns (parseXml : string -> outcome ToonValue)
    (fuel : nat) (data : string) (parsed : ToonValue) :
  parseXml data = Ret parsed ->
  no_null parsed = true ->
  3 * depth parsed <= fuel ->
  exists text, Converters.xmlToToon parseXml fuel data = Ret text.
Proof.
  intros Hparse Hsafe Hfuel. unfold Converters.xmlToToon. rewrite Hparse.
  simpl bind.
  set (flat := Converters.xmlElementToDict parsed).
  assert (Hflat : no_null_row flat = true)
    by apply no_null_no_null_row, xmlElementToDict_no_null, Hsafe.
  assert (Hdepth : 3 * depth flat <= fuel).
  { pose proof (xmlElementToDict_depth parsed) as H. fold flat in H. lia. }
  pose proof (toToon_enough_fuel flat 2 fuel Hdepth) as Hrun.
  assert (Hthrow : no_throw (Core.toToon fuel flat 2)).
  { destruct (core_no_throw fuel) as (Hd & Hl & _ & _).
    destruct flat; simpl; try apply ret_no_throw; [apply Hl | apply Hd];
      exact Hflat. }
  destruct (Core.toToon fuel flat 2) as [s|msg|].
  - eauto.
  - exfalso. exact (Hthrow msg eq_refl).
  - congruence.
Qed.

Lemma xmlToToon_returns_witness :
  exists text,
    Converters.xmlToToon
      (fun _ => Ret (VObject
         [("user", VArray
            [VObject [("$", VObject [("id", VString "7")]);
                      ("name", VArray [VString "Alice"]);
                      ("tag", VArray [VString "a"; VString "b"])]])]))
      12 "<user id='7'><name>Alice</name><tag>a</tag><tag>b</tag></user>"
    = Ret text.
Proof.
  apply (xmlToToon_returns
           (fun _ => Ret (VObject
              [("user", VArray
                 [VObject [("$", VObject [("id", VString "7")]);
                           ("name", VArray [VString "Alice"]);
                           ("tag", VArray [VString "a"; VString "b"])]])]))
           12 "<user id='7'><name>Alice</name><tag>a</tag><tag>b</tag></user>"
           (VObject
              [("user", VArray
                 [VObject [("$", VObject [("id", VString "7")]);
                           ("name", VArray [VString "Alice"]);
                           ("tag", VArray [VString "a"; VString "b"])]])])).
  - reflexivity.
  - reflexivity.
  - vm_compute. lia.
Defined.
